(** * One-dimensional heat equation: [diffusion.py]

    A shallow embedding of [heat] and [step] from [diffusion.py] and of the
    harness of [test_diffusion.py], together with the properties stated
    about them.

    The Python functions are duck-typed over their numbers: they only use
    [+], [-], [*], [/], [**], the comparison [>] and the literals [0.5],
    [1] and [2].  The embedding is therefore written once over an interface
    [Number] of exactly these operations; Python exceptions are the [Raise]
    results of an error monad.  The properties are stated in the exact
    arithmetic of the specification: laws of exact arithmetic are a second
    interface, [ExactNumber], which the canonical rationals [Qc] (Python's
    [fractions.Fraction], executable) and the real numbers [R] satisfy.
    Properties of the control flow and of the list structure need no law
    and are proved over [Number]; there [r = alpha * dt / dx ** 2] says
    that the division returns [r].  The convergence test, which calls
    [sin] and [exp], is stated over [R].  A third instance, IEEE binary64
    arithmetic, serves only to evaluate the two test vectors of
    [test_diffusion.py] as floats. *)

From Stdlib Require Import ZArith List Lia Bool Ring.
From Stdlib Require Import QArith Qcanon.
From Stdlib Require Import Reals Lra.
From Stdlib Require Floats.
Import ListNotations.

(** ** Exceptions and results *)

(** The exceptions the two functions can raise.  [step] raises a bare
    [Exception] when the scheme is unstable (the InstabilityError of the
    specification); the other two are raised by the interpreter. *)
Inductive exn : Set :=
| Exception
| ZeroDivisionError
| IndexError.

Inductive result (A : Type) : Type :=
| Ok (a : A)
| Raise (e : exn).

Arguments Ok {A} a.
Arguments Raise {A} e.

Definition bind {A B : Type} (m : result A) (k : A -> result B) : result B :=
  match m with
  | Ok a => k a
  | Raise e => Raise e
  end.

Declare Scope py_scope.
Delimit Scope py_scope with py.
Notation "x <- m ;; k" := (bind m (fun x => k))
  (at level 61, m at next level, right associativity) : py_scope.
Open Scope py_scope.

(** A list comprehension whose element expression may raise. *)
Fixpoint comprehension {A B : Type} (f : A -> result B) (l : list A)
  : result (list B) :=
  match l with
  | [] => Ok []
  | a :: l' =>
      b <- f a ;;
      bs <- comprehension f l' ;;
      Ok (b :: bs)
  end.

(** ** Python lists *)

(** [range(a, b)] *)
Definition range (a b : Z) : list Z :=
  map (fun j => (a + Z.of_nat j)%Z) (seq 0 (Z.to_nat (b - a))).

(** [len(u)] *)
Definition len {A : Type} (u : list A) : Z := Z.of_nat (length u).

(** [u[k]]: a negative index counts from the end, an index outside the
    list raises [IndexError]. *)
Definition getitem {A : Type} (u : list A) (k : Z) : result A :=
  let k' := if (k <? 0)%Z then (k + len u)%Z else k in
  if (k' <? 0)%Z then Raise IndexError
  else match nth_error u (Z.to_nat k') with
       | Some x => Ok x
       | None => Raise IndexError
       end.

(** [u[:1]] *)
Definition slice_to_1 {A : Type} (u : list A) : list A := firstn 1 u.

(** [u[-1:]] *)
Definition slice_from_minus_1 {A : Type} (u : list A) : list A :=
  skipn (length u - 1) u.

(** [l[1:-1]] *)
Definition slice_1_to_minus_1 {A : Type} (l : list A) : list A :=
  firstn (length l - 2) (skipn 1 l).

(** ** Numbers *)

(** The operations [heat] and [step] apply to their numeric arguments. *)
Class Number (T : Type) : Type := {
  of_int : Z -> T;            (* an [int] operand or literal *)
  half : T;                   (* the literal [0.5] *)
  add : T -> T -> T;
  sub : T -> T -> T;
  mul : T -> T -> T;
  quot : T -> T -> T;         (* [x / y] for a divisor that is not zero *)
  is_zero : T -> bool;
  gt : T -> T -> bool         (* [x > y] *)
}.

Declare Scope num_scope.
Delimit Scope num_scope with num.
Notation "x + y" := (add x y) : num_scope.
Notation "x - y" := (sub x y) : num_scope.
Notation "x * y" := (mul x y) : num_scope.
Notation "x >? y" := (gt x y) (at level 70, no associativity) : num_scope.

Section Diffusion.

Context {T : Type} {N : Number T}.

Local Open Scope num_scope.

(** [x / y] *)
Definition truediv (x y : T) : result T :=
  if is_zero y then Raise ZeroDivisionError else Ok (quot x y).

(** [x ** n] for an [int] exponent [n >= 0] *)
Fixpoint power (x : T) (n : nat) : T :=
  match n with
  | O => of_int 1
  | S n' => x * power x n'
  end.

(** The element expression of the comprehension in [step]:
    [r * u[i + 1] + (1 - 2 * r) * u[i] + r * u[i - 1]]. *)
Definition stencil (r : T) (u : list T) (i : Z) : result T :=
  a <- getitem u (i + 1)%Z ;;
  b <- getitem u i ;;
  c <- getitem u (i - 1)%Z ;;
  Ok (r * a + (of_int 1 - of_int 2 * r) * b + r * c).

Definition step (u : list T) (dx dt alpha : T) : result (list T) :=
  r <- truediv (alpha * dt) (power dx 2) ;;
  if r >? half then Raise Exception
  else
    interior <- comprehension (stencil r u) (range 1 (len u - 1)) ;;
    Ok (slice_to_1 u ++ interior ++ slice_from_minus_1 u).

(** The loop [for t in range(n): u = step(u, dx, dt, alpha)]. *)
Fixpoint march (n : nat) (u : list T) (dx dt alpha : T)
  : result (list T) :=
  match n with
  | O => Ok u
  | S n' =>
      u' <- step u dx dt alpha ;;
      march n' u' dx dt alpha
  end.

Definition heat (u : list T) (nt nx : Z) (alpha L tmax : T)
  : result (list T) :=
  dx <- truediv L (of_int (nx - 1)) ;;
  dt <- truediv tmax (of_int (nt - 1)) ;;
  march (Z.to_nat (nt - 1)) u dx dt alpha.

End Diffusion.

(** ** What a stable step returns *)

Section StepModel.

Context {T : Type} {N : Number T}.

Local Open Scope num_scope.

(** The value of [alpha * dt / dx ** 2] when the division succeeds. *)
Definition ratio (dx dt alpha : T) : T := quot (alpha * dt) (power dx 2).

(** The stencil at index [i], on the pre-step profile [u]. *)
Definition update (r : T) (u : list T) (i : nat) : T :=
  r * nth (i + 1) u (of_int 0)
  + (of_int 1 - of_int 2 * r) * nth i u (of_int 0)
  + r * nth (i - 1) u (of_int 0).

(** The profile a stable step returns. *)
Definition advance (r : T) (u : list T) : list T :=
  slice_to_1 u
  ++ map (fun i => update r u (Z.to_nat i)) (range 1 (len u - 1))
  ++ slice_from_minus_1 u.

(** Applying [step] exactly [k] times in sequence, each application
    receiving the previous application's output, with [dx], [dt] and
    [alpha] held constant: the words of the specification of the driver. *)
Fixpoint apply_step_times (k : nat) (u : list T) (dx dt alpha : T)
  : result (list T) :=
  match k with
  | O => Ok u
  | S k' =>
      previous <- apply_step_times k' u dx dt alpha ;;
      step previous dx dt alpha
  end.

End StepModel.

(** ** Rational numbers *)

Module Rational.

Definition gtb (x y : Qc) : bool :=
  match (x ?= y)%Qc with
  | Gt => true
  | _ => false
  end.

#[global] Instance Qc_Number : Number Qc := {|
  of_int := fun z => Q2Qc (inject_Z z);
  half := Q2Qc (1 # 2);
  add := Qcplus;
  sub := Qcminus;
  mul := Qcmult;
  quot := Qcdiv;
  is_zero := fun x => Qc_eq_bool x (Q2Qc 0);
  gt := gtb
|}.

(** The number [n / d]: the decimal literal [0.04] is [dec 4 100]. *)
Definition dec (n : Z) (d : positive) : Qc := Q2Qc (n # d).

End Rational.

(** ** Real numbers *)

Module Real.

#[global] Instance R_Number : Number R := {|
  of_int := IZR;
  half := (1 / 2)%R;
  add := Rplus;
  sub := Rminus;
  mul := Rmult;
  quot := Rdiv;
  is_zero := fun x => if Req_dec_T x 0%R then true else false;
  gt := fun x y => if Rlt_dec y x then true else false
|}.

End Real.

(** ** Binary64 floats *)

(** IEEE 754 binary64 arithmetic: [+], [-], [*] and [/] round to nearest,
    a division by [0.0] or [-0.0] raises [ZeroDivisionError], an [int]
    operand is rounded to the nearest float, and [x ** 2] is the rounded
    product [x * x].  This is Python's [float] on the arguments of
    [test_step] and [test_step_instability], for which it is used.  It is
    not Python's [float] everywhere: CPython computes [x ** 2] with the
    [pow] of the C library, which may differ from the rounded product in
    the last place and raises [OverflowError] when the square overflows,
    and it raises [OverflowError] for an [int] operand beyond the range of
    a float.  No property below is stated for this instance except the
    two test vectors. *)
Module Binary64.

Definition float : Set := PrimFloat.float.

Definition of_Z (z : Z) : float :=
  FloatOps.SF2Prim
    (SpecFloat.binary_normalize FloatOps.prec FloatOps.emax z 0 false).

(** The float nearest to [n / d]: the decimal literal [0.04] is
    [dec 4 100]. *)
Definition dec (n : Z) (d : positive) : float :=
  PrimFloat.div (of_Z n) (of_Z (Z.pos d)).

#[global] Instance float_Number : Number float := {|
  of_int := of_Z;
  half := dec 5 10;
  add := PrimFloat.add;
  sub := PrimFloat.sub;
  mul := PrimFloat.mul;
  quot := PrimFloat.div;
  is_zero := fun x => PrimFloat.eqb x (of_Z 0);
  gt := fun x y => PrimFloat.ltb y x
|}.

End Binary64.

(** ** Test data *)

(** The profile [[0, 1, 1, 0]] of [test_step], over the rationals. *)
Definition test_profile : list Qc :=
  [of_int 0; of_int 1; of_int 1; of_int 0].

(** Two results over [Qc] are equal when their numerators and
    denominators are. *)
Definition fractions (m : result (list Qc)) : result (list Q) :=
  match m with
  | Ok l => Ok (map this l)
  | Raise e => Raise e
  end.


(** ** The convergence test of [test_diffusion.py], over the reals *)

Module TestDiffusion.

Import Real.

Local Open Scope R_scope.

(** [linspace(start, stop, num)] *)
Definition linspace (start stop : R) (num : Z) : result (list R) :=
  comprehension
    (fun x : Z =>
       q <- truediv (IZR x * (stop - start)) (IZR (num - 1)) ;;
       Ok (start + q))
    (range 0 num).

Definition nt : Z := 10.
Definition nx : Z := 20.
Definition alpha : R := 1 / 100.

(** [[math.sin(math.pi * x / L) for x in xs]] *)
Definition sines (L : R) (xs : list R) : result (list R) :=
  comprehension (fun x : R => q <- truediv (PI * x) L ;; Ok (sin q)) xs.

(** [numerical_solution] of [test_heat(L, tmax)] *)
Definition numerical_solution (L tmax : R) : result (list R) :=
  xs <- linspace 0 L nx ;;
  s <- sines L xs ;;
  heat ([0] ++ slice_1_to_minus_1 s ++ [0]) nt nx alpha L tmax.

(** [analytical_solution] of [test_heat(L, tmax)] *)
Definition analytical_solution (L tmax : R) : result (list R) :=
  xs <- linspace 0 L nx ;;
  interior <-
    comprehension
      (fun x : R =>
         q <- truediv (PI * x) L ;;
         p <- truediv PI L ;;
         Ok (sin q * exp (- tmax * alpha * power p 2)))
      (slice_1_to_minus_1 xs) ;;
  Ok ([0] ++ interior ++ [0]).

(** [actual == pytest.approx(expected, abs=tol)]: two lists of the same
    length whose entries differ by at most [tol]. *)
Definition approx_abs (tol : R) (actual expected : list R) : Prop :=
  Forall2 (fun a e : R => Rabs (a - e) <= tol) actual expected.

(** The pairs [(L, tmax)] of [@pytest.mark.parametrize]. *)
Definition parameters : list (R * R) := [(1, 1 / 2); (2, 1 / 2); (1, 1)].

End TestDiffusion.

(** ** Discrete sine modes *)

Section SineModes.

Local Open Scope R_scope.

(** The factor by which one stable step scales a sine profile of node
    angle [theta]. *)
Definition growth (r theta : R) : R := 1 - 2 * r * (1 - cos theta).

(** The profile [a * sin(k * theta)] on the nodes [k = 0 .. n - 1]. *)
Definition sine_mode (theta : R) (n : nat) (a : R) : list R :=
  map (fun k : nat => a * sin (INR k * theta)) (seq 0 n).

End SineModes.

(** ** Operations on profiles *)

Section Profiles.

Context {T : Type} {N : Number T}.

Local Open Scope num_scope.

(** The profile [c * u[i]]. *)
Definition scale (c : T) (u : list T) : list T := map (mul c) u.

(** The profile [u[i] + w[i]], on the common nodes of [u] and [w]. *)
Definition add_profiles (u w : list T) : list T :=
  map (fun p : T * T => fst p + snd p) (combine u w).

(** The profile [a + b * i] on the nodes [i = 0 .. n - 1]. *)
Definition linear_profile (a b : T) (n : nat) : list T :=
  map (fun i : nat => a + b * of_int (Z.of_nat i)) (seq 0 n).

End Profiles.

(** Every entry of a real profile lies between [lo] and [hi]. *)
Definition within (lo hi : R) (u : list R) : Prop :=
  Forall (fun x : R => (lo <= x <= hi)%R) u.

(** ** Exact arithmetic *)

(** The laws of an exact number system: a commutative ring of
    characteristic zero without zero divisors, in which [quot] is the
    inverse of multiplication and [is_zero] decides equality with zero.
    Rounded arithmetic does not satisfy them. *)
Class ExactNumber (T : Type) {N : Number T} : Prop := {
  num_ring :
    ring_theory (of_int 0) (of_int 1) add mul sub
                (fun x => sub (of_int 0) x) (@eq T);
  of_int_add : forall a b : Z, of_int (a + b) = add (of_int a) (of_int b);
  of_int_zero : forall z : Z, of_int z = of_int 0 -> z = 0%Z;
  is_zero_spec : forall x : T, is_zero x = true <-> x = of_int 0;
  mul_integral :
    forall x y : T, mul x y = of_int 0 -> x = of_int 0 \/ y = of_int 0;
  quot_mul : forall x y : T, y <> of_int 0 -> mul (quot x y) y = x;
  gt_irrefl : forall x : T, gt x x = false
}.

Module RationalLaws.
Import Rational.

Lemma Q2Qc_inject_add (a b : Z) :
  Q2Qc (inject_Z (a + b)) = (Q2Qc (inject_Z a) + Q2Qc (inject_Z b))%Qc.
Proof.
  apply Qc_is_canon.
  change (Qred (inject_Z (a + b))
          == Qred (Qred (inject_Z a) + Qred (inject_Z b)))%Q.
  rewrite !Qred_correct, inject_Z_plus. reflexivity.
Qed.

Lemma Q2Qc_inject_zero (z : Z) :
  Q2Qc (inject_Z z) = Q2Qc (inject_Z 0) -> z = 0%Z.
Proof.
  intros H. apply (f_equal this) in H.
  change (Qred (inject_Z z) = Qred (inject_Z 0)) in H.
  assert (Hq : (inject_Z z == inject_Z 0)%Q).
  { rewrite <- (Qred_correct (inject_Z z)), H. apply Qred_correct. }
  unfold Qeq in Hq. simpl in Hq. lia.
Qed.

Lemma gtb_irrefl (x : Qc) : gtb x x = false.
Proof.
  unfold gtb. replace (x ?= x)%Qc with Eq; [reflexivity|].
  symmetry. apply Qceq_alt. reflexivity.
Qed.

#[global] Instance Qc_ExactNumber : ExactNumber Qc.
Proof.
  split.
  - split; intros; cbn [of_int add mul sub Qc_Number];
      change (Q2Qc (inject_Z 0)) with 0%Qc;
      change (Q2Qc (inject_Z 1)) with 1%Qc; ring.
  - exact Q2Qc_inject_add.
  - exact Q2Qc_inject_zero.
  - intros x. cbn [is_zero of_int Qc_Number]. split.
    + apply Qc_eq_bool_correct.
    + intros ->. unfold Qc_eq_bool.
      destruct (Qc_eq_dec _ _) as [_|Hn]; [reflexivity|now elim Hn].
  - intros x y. cbn [mul of_int Qc_Number]. apply Qcmult_integral.
  - intros x y Hy. cbn [mul quot of_int Qc_Number] in *.
    change (Q2Qc (inject_Z 0)) with 0%Qc in Hy. field. exact Hy.
  - exact gtb_irrefl.
Qed.

End RationalLaws.

Module RealLaws.
Import Real.

#[global] Instance R_ExactNumber : ExactNumber R.
Proof.
  split; cbn [of_int add sub mul quot is_zero gt R_Number].
  - split; intros; ring.
  - exact plus_IZR.
  - intros z. apply eq_IZR.
  - intros x. destruct (Req_dec_T x 0); split; congruence.
  - exact Rmult_integral.
  - intros x y Hy. field. exact Hy.
  - intros x. destruct (Rlt_dec x x) as [H|H]; [|reflexivity].
    elim (Rlt_irrefl _ H).
Qed.

End RealLaws.

(** ** The error monad *)

Section Monad.

Context {A B C : Type}.

Lemma bind_assoc (m : result A) (f : A -> result B) (g : B -> result C) :
  bind (bind m f) g = bind m (fun a => bind (f a) g).
Proof. destruct m; reflexivity. Qed.

Lemma bind_Ok_inv (m : result A) (f : A -> result B) (b : B) :
  bind m f = Ok b -> exists a, m = Ok a /\ f a = Ok b.
Proof.
  destruct m as [a|e]; simpl; intros H; [|discriminate].
  exists a. split; [reflexivity|exact H].
Qed.

Lemma comprehension_map (f : A -> result B) (g : A -> B) (l : list A) :
  (forall a, In a l -> f a = Ok (g a)) ->
  comprehension f l = Ok (map g l).
Proof.
  induction l as [|a l IH]; intros Hf; simpl.
  - reflexivity.
  - rewrite (Hf a (or_introl eq_refl)). simpl.
    rewrite IH; [reflexivity|].
    intros a' Ha'. apply Hf. right. exact Ha'.
Qed.

End Monad.

(** ** Python lists: indexing and ranges *)

Section Lists.

Context {A : Type}.

Lemma range_length (a b : Z) : length (range a b) = Z.to_nat (b - a).
Proof. unfold range. rewrite length_map, length_seq. reflexivity. Qed.

Lemma in_range (a b i : Z) : In i (range a b) <-> (a <= i < b)%Z.
Proof.
  unfold range. rewrite in_map_iff. split.
  - intros [j [<- Hj]]. apply in_seq in Hj. lia.
  - intros Hi. exists (Z.to_nat (i - a)). split; [lia|].
    apply in_seq. lia.
Qed.

Lemma range_nth (a b : Z) (j : nat) (d : Z) :
  (j < Z.to_nat (b - a))%nat -> nth j (range a b) d = (a + Z.of_nat j)%Z.
Proof.
  intros Hj. unfold range.
  rewrite (nth_indep _ d (a + Z.of_nat 0)%Z)
    by (rewrite length_map, length_seq; exact Hj).
  rewrite (map_nth (fun j => (a + Z.of_nat j)%Z)), seq_nth by exact Hj.
  reflexivity.
Qed.

Lemma getitem_nth (u : list A) (k : Z) (d : A) :
  (0 <= k < len u)%Z -> getitem u k = Ok (nth (Z.to_nat k) u d).
Proof.
  unfold getitem, len. cbv zeta. intros Hk.
  assert (Hf : (k <? 0)%Z = false) by (apply Z.ltb_ge; lia).
  rewrite Hf. cbv iota. rewrite Hf.
  destruct (nth_error u (Z.to_nat k)) as [x|] eqn:Hx.
  - rewrite (nth_error_nth _ _ d Hx). reflexivity.
  - apply nth_error_None in Hx. lia.
Qed.

Lemma getitem_minus_1 (u : list A) (d : A) :
  u <> [] -> getitem u (-1) = Ok (last u d).
Proof.
  intros Hu. unfold getitem, len.
  assert (Hlen : (0 < length u)%nat) by (destruct u; simpl; [easy|lia]).
  cbv zeta. change (-1 <? 0)%Z with true. cbv iota.
  destruct (Z.ltb_spec (-1 + Z.of_nat (length u)) 0) as [Hneg|_]; [lia|].
  replace (Z.to_nat (-1 + Z.of_nat (length u))) with (length u - 1)%nat
    by lia.
  destruct (nth_error u (length u - 1)) as [x|] eqn:Hx.
  - f_equal. destruct (exists_last Hu) as [l [a ->]].
    rewrite last_last. rewrite length_app in Hx. simpl in Hx.
    rewrite nth_error_app2 in Hx by lia.
    replace (length l + 1 - 1 - length l)%nat with O in Hx by lia.
    simpl in Hx. congruence.
  - apply nth_error_None in Hx. lia.
Qed.

Lemma nth_last (l : list A) (d : A) : nth (length l - 1) l d = last l d.
Proof.
  destruct l as [|a l]; [reflexivity|].
  assert (Hne : a :: l <> []) by discriminate.
  destruct (exists_last Hne) as [l' [b ->]].
  rewrite last_last, length_app, app_nth2 by (simpl; lia).
  simpl. replace (length l' + 1 - 1 - length l')%nat with O by lia.
  reflexivity.
Qed.

Lemma slice_to_1_length (u : list A) :
  length (slice_to_1 u) = Nat.min 1 (length u).
Proof. apply length_firstn. Qed.

Lemma slice_from_minus_1_length (u : list A) :
  length (slice_from_minus_1 u) = Nat.min 1 (length u).
Proof. unfold slice_from_minus_1. rewrite length_skipn. lia. Qed.

Lemma slice_from_minus_1_last (u : list A) (d : A) :
  u <> [] -> slice_from_minus_1 u = [last u d].
Proof.
  intros Hu. destruct (exists_last Hu) as [l [a ->]].
  unfold slice_from_minus_1.
  rewrite last_last, length_app. simpl.
  replace (length l + 1 - 1)%nat with (length l + 0)%nat by lia.
  rewrite skipn_app, skipn_all2 by lia.
  replace (length l + 0 - length l)%nat with O by lia. reflexivity.
Qed.

End Lists.

(** ** What [step] computes *)

Section StepFacts.

Context {T : Type} {N : Number T}.

Local Open Scope num_scope.

Lemma stencil_interior (r : T) (u : list T) (i : Z) :
  (1 <= i < len u - 1)%Z -> stencil r u i = Ok (update r u (Z.to_nat i)).
Proof.
  intros Hi. unfold stencil, update.
  rewrite (getitem_nth u (i + 1) (of_int 0)) by lia.
  rewrite (getitem_nth u i (of_int 0)) by lia.
  rewrite (getitem_nth u (i - 1) (of_int 0)) by lia.
  simpl.
  replace (Z.to_nat (i + 1)) with (Z.to_nat i + 1)%nat by lia.
  replace (Z.to_nat (i - 1)) with (Z.to_nat i - 1)%nat by lia.
  reflexivity.
Qed.

(** The list comprehension of [step] never raises. *)
Lemma interior_ok (r : T) (u : list T) :
  comprehension (stencil r u) (range 1 (len u - 1))
  = Ok (map (fun i => update r u (Z.to_nat i)) (range 1 (len u - 1))).
Proof.
  apply comprehension_map. intros i Hi.
  apply stencil_interior. apply in_range in Hi. exact Hi.
Qed.

(** [step] as a case distinction: the only results are a division by
    zero, the instability exception, and the advanced profile. *)
Lemma step_cases (u : list T) (dx dt alpha : T) :
  step u dx dt alpha =
  if is_zero (power dx 2) then Raise ZeroDivisionError
  else if ratio dx dt alpha >? half then Raise Exception
       else Ok (advance (ratio dx dt alpha) u).
Proof.
  unfold step, truediv, ratio.
  destruct (is_zero (power dx 2)); cbn [bind]; [reflexivity|].
  destruct (quot (alpha * dt) (power dx 2) >? half); [reflexivity|].
  rewrite interior_ok. reflexivity.
Qed.

Lemma step_stable (u : list T) (dx dt alpha : T) :
  is_zero (power dx 2) = false ->
  (ratio dx dt alpha >? half) = false ->
  step u dx dt alpha = Ok (advance (ratio dx dt alpha) u).
Proof. intros Hz Hr. rewrite step_cases, Hz, Hr. reflexivity. Qed.

Lemma step_unstable (u : list T) (dx dt alpha : T) :
  is_zero (power dx 2) = false ->
  (ratio dx dt alpha >? half) = true ->
  step u dx dt alpha = Raise Exception.
Proof. intros Hz Hr. rewrite step_cases, Hz, Hr. reflexivity. Qed.

Lemma step_Ok_inv (u v : list T) (dx dt alpha : T) :
  step u dx dt alpha = Ok v -> v = advance (ratio dx dt alpha) u.
Proof.
  rewrite step_cases.
  destruct (is_zero (power dx 2)); [discriminate|].
  destruct (ratio dx dt alpha >? half); [discriminate|].
  congruence.
Qed.

Lemma truediv_Ok_inv (x y q : T) :
  truediv x y = Ok q -> is_zero y = false /\ q = quot x y.
Proof.
  unfold truediv. destruct (is_zero y); [discriminate|].
  intros H. injection H as <-. split; reflexivity.
Qed.

(** [r = alpha * dt / dx ** 2]: the division is defined and [r] is its
    value. *)
Lemma ratio_Ok_inv (dx dt alpha r : T) :
  truediv (alpha * dt) (power dx 2) = Ok r ->
  is_zero (power dx 2) = false /\ r = ratio dx dt alpha.
Proof. apply truediv_Ok_inv. Qed.

Lemma step_zero_division (u : list T) (dx dt alpha : T) :
  is_zero (power dx 2) = true ->
  step u dx dt alpha = Raise ZeroDivisionError.
Proof. intros Hz. rewrite step_cases, Hz. reflexivity. Qed.

(** *** The advanced profile *)

Lemma advance_cons (r : T) (a : T) (u : list T) :
  advance r (a :: u) =
  a :: map (fun i => update r (a :: u) (Z.to_nat i))
           (range 1 (len (a :: u) - 1))
    ++ slice_from_minus_1 (a :: u).
Proof. reflexivity. Qed.

Lemma advance_length (r : T) (u : list T) :
  (2 <= length u)%nat -> length (advance r u) = length u.
Proof.
  intros Hu. unfold advance.
  rewrite !length_app, length_map, range_length.
  rewrite slice_to_1_length, slice_from_minus_1_length.
  unfold len. lia.
Qed.

Lemma advance_not_nil (r : T) (u : list T) : u <> [] -> advance r u <> [].
Proof. destruct u as [|a u]; [easy|]. rewrite advance_cons. discriminate. Qed.

Lemma advance_first (r : T) (u : list T) (d : T) :
  nth 0 (advance r u) d = nth 0 u d.
Proof. destruct u as [|a u]; reflexivity. Qed.

Lemma advance_last (r : T) (u : list T) (d : T) :
  last (advance r u) d = last u d.
Proof.
  destruct u as [|a u]; [reflexivity|].
  unfold advance. rewrite app_assoc.
  rewrite (slice_from_minus_1_last (a :: u) d) by discriminate.
  apply last_last.
Qed.

Lemma advance_interior (r : T) (u : list T) (i : nat) (d : T) :
  (1 <= i <= length u - 2)%nat -> nth i (advance r u) d = update r u i.
Proof.
  intros Hi. destruct u as [|a u]; [simpl in Hi; lia|].
  rewrite advance_cons. destruct i as [|i]; [lia|]. simpl nth.
  assert (Hlen : (i < Z.to_nat (len (a :: u) - 1 - 1))%nat)
    by (unfold len; simpl length in *; lia).
  rewrite app_nth1 by (rewrite length_map, range_length; exact Hlen).
  rewrite (nth_indep _ d (update r (a :: u) (Z.to_nat 0)))
    by (rewrite length_map, range_length; exact Hlen).
  rewrite (map_nth (fun i => update r (a :: u) (Z.to_nat i))).
  rewrite range_nth by exact Hlen.
  f_equal. lia.
Qed.

(** The advanced profile is determined by its two boundary entries and
    the stencil at the interior indexes. *)
Lemma advance_ext (r : T) (u w : list T) (d : T) :
  (2 <= length u)%nat ->
  length w = length u ->
  nth 0 w d = nth 0 u d ->
  nth (length u - 1) w d = nth (length u - 1) u d ->
  (forall i, (1 <= i <= length u - 2)%nat -> nth i w d = update r u i) ->
  advance r u = w.
Proof.
  intros Hu Hlen H0 Hlast Hint. apply (nth_ext _ _ d d).
  - rewrite advance_length by exact Hu. symmetry. exact Hlen.
  - intros i Hi. rewrite advance_length in Hi by exact Hu.
    destruct (Nat.eq_dec i 0) as [->|Hi0].
    + rewrite advance_first. symmetry. exact H0.
    + destruct (Nat.eq_dec i (length u - 1)) as [->|Hi1].
      * rewrite Hlast, <- (advance_length r u Hu), nth_last, advance_last.
        rewrite <- nth_last, advance_length by exact Hu. reflexivity.
      * rewrite advance_interior by lia. symmetry. apply Hint. lia.
Qed.

(** Python's [v[0]] and [v[-1]] on the advanced profile. *)
Lemma advance_getitem_first (r : T) (u : list T) :
  getitem (advance r u) 0 = getitem u 0.
Proof. destruct u as [|a u]; reflexivity. Qed.

Lemma advance_getitem_last (r : T) (u : list T) :
  getitem (advance r u) (-1) = getitem u (-1).
Proof.
  destruct u as [|a u]; [reflexivity|].
  rewrite (getitem_minus_1 (advance r (a :: u)) a)
    by (apply advance_not_nil; discriminate).
  rewrite (getitem_minus_1 (a :: u) a) by discriminate.
  rewrite advance_last. reflexivity.
Qed.

(** *** The loop *)

Lemma march_stable (n : nat) (u : list T) (dx dt alpha : T) :
  is_zero (power dx 2) = false ->
  (ratio dx dt alpha >? half) = false ->
  march n u dx dt alpha = Ok (Nat.iter n (advance (ratio dx dt alpha)) u).
Proof.
  intros Hz Hr. revert u. induction n as [|n IH]; intros u.
  - reflexivity.
  - simpl march. rewrite (step_stable u _ _ _ Hz Hr). simpl bind.
    rewrite IH. rewrite <- Nat.iter_succ_r. reflexivity.
Qed.

Lemma march_unstable (n : nat) (u : list T) (dx dt alpha : T) :
  is_zero (power dx 2) = false ->
  (ratio dx dt alpha >? half) = true ->
  march (S n) u dx dt alpha = Raise Exception.
Proof.
  intros Hz Hr. simpl. rewrite (step_unstable u _ _ _ Hz Hr). reflexivity.
Qed.

Lemma march_zero_division (n : nat) (u : list T) (dx dt alpha : T) :
  is_zero (power dx 2) = true ->
  march (S n) u dx dt alpha = Raise ZeroDivisionError.
Proof.
  intros Hz. simpl. rewrite (step_zero_division u _ _ _ Hz). reflexivity.
Qed.

(** [heat] once its two step sizes are computed. *)
Lemma heat_march (u : list T) (nt nx : Z) (alpha L tmax dx dt : T) :
  truediv L (of_int (nx - 1)) = Ok dx ->
  truediv tmax (of_int (nt - 1)) = Ok dt ->
  heat u nt nx alpha L tmax = march (Z.to_nat (nt - 1)) u dx dt alpha.
Proof. intros Hdx Hdt. unfold heat. rewrite Hdx, Hdt. reflexivity. Qed.

Lemma march_succ (n : nat) (u : list T) (dx dt alpha : T) :
  march (S n) u dx dt alpha
  = (v <- march n u dx dt alpha ;; step v dx dt alpha).
Proof.
  revert u. induction n as [|n IH]; intros u.
  - simpl. destruct (step u dx dt alpha); reflexivity.
  - change (march (S (S n)) u dx dt alpha)
      with (u' <- step u dx dt alpha ;; march (S n) u' dx dt alpha).
    change (march (S n) u dx dt alpha)
      with (u' <- step u dx dt alpha ;; march n u' dx dt alpha).
    rewrite bind_assoc.
    destruct (step u dx dt alpha) as [u'|e]; simpl; [apply IH|reflexivity].
Qed.

Lemma march_Ok_inv (n : nat) (u v : list T) (dx dt alpha : T) :
  march n u dx dt alpha = Ok v ->
  v = Nat.iter n (advance (ratio dx dt alpha)) u.
Proof.
  revert u. induction n as [|n IH]; intros u H.
  - injection H as <-. reflexivity.
  - cbn [march] in H. apply bind_Ok_inv in H. destruct H as [u' [Hs Hm]].
    apply step_Ok_inv in Hs. subst u'. apply IH in Hm.
    rewrite Hm, <- Nat.iter_succ_r. reflexivity.
Qed.

Lemma iter_advance_getitem (n : nat) (r : T) (u : list T) :
  getitem (Nat.iter n (advance r) u) 0 = getitem u 0
  /\ getitem (Nat.iter n (advance r) u) (-1) = getitem u (-1).
Proof.
  induction n as [|n [IH0 IH1]]; [split; reflexivity|].
  simpl Nat.iter. rewrite advance_getitem_first, advance_getitem_last.
  split; assumption.
Qed.

End StepFacts.
(** ** Consequences of exact arithmetic *)

Section ExactFacts.

Context {T : Type} {N : Number T} {E : ExactNumber T}.

Local Open Scope num_scope.

Add Ring number_ring : num_ring.

Lemma of_int_two : of_int 2 = of_int 1 + of_int 1.
Proof. exact (of_int_add 1 1). Qed.

Lemma is_zero_false (x : T) : is_zero x = false <-> x <> of_int 0.
Proof.
  split.
  - intros Hz Hx. apply is_zero_spec in Hx. congruence.
  - intros Hx. destruct (is_zero x) eqn:Hz; [|reflexivity].
    apply is_zero_spec in Hz. contradiction.
Qed.

Lemma of_int_nonzero (z : Z) : z <> 0%Z -> is_zero (of_int z) = false.
Proof.
  intros Hz. apply is_zero_false. intros H. apply Hz.
  exact (of_int_zero z H).
Qed.

Lemma gt_zero_nonzero (x : T) : (x >? of_int 0) = true -> x <> of_int 0.
Proof. intros Hx ->. rewrite gt_irrefl in Hx. discriminate. Qed.

Lemma mul_nonzero (x y : T) :
  x <> of_int 0 -> y <> of_int 0 -> x * y <> of_int 0.
Proof. intros Hx Hy H. destruct (mul_integral x y H); contradiction. Qed.

Lemma quot_nonzero (x y : T) :
  x <> of_int 0 -> y <> of_int 0 -> quot x y <> of_int 0.
Proof.
  intros Hx Hy H. apply Hx.
  rewrite <- (quot_mul x y Hy), H. ring.
Qed.

Lemma power_2_nonzero (x : T) :
  x <> of_int 0 -> is_zero (power x 2) = false.
Proof.
  intros Hx. apply is_zero_false. simpl.
  apply mul_nonzero; [exact Hx|]. apply mul_nonzero; [exact Hx|].
  apply is_zero_false. apply of_int_nonzero. discriminate.
Qed.

(** The three weights of the stencil sum to one. *)
Lemma stencil_weights (r c : T) :
  r * c + (of_int 1 - of_int 2 * r) * c + r * c = c.
Proof. rewrite of_int_two. ring. Qed.

Lemma weights_sum (r : T) : r + (of_int 1 - of_int 2 * r) + r = of_int 1.
Proof. rewrite of_int_two. ring. Qed.

Lemma truediv_of_int (x : T) (z : Z) :
  z <> 0%Z -> truediv x (of_int z) = Ok (quot x (of_int z)).
Proof. intros Hz. unfold truediv. rewrite (of_int_nonzero z Hz). reflexivity. Qed.

Lemma truediv_nonzero (x y : T) :
  y <> of_int 0 -> truediv x y = Ok (quot x y).
Proof.
  intros Hy. unfold truediv.
  rewrite (proj2 (is_zero_false y) Hy). reflexivity.
Qed.

(** In exact arithmetic a positive [dx] makes the ratio defined. *)
Lemma ratio_defined (dx dt alpha : T) :
  (dx >? of_int 0) = true ->
  truediv (alpha * dt) (power dx 2) = Ok (ratio dx dt alpha).
Proof.
  intros Hdx. unfold truediv.
  rewrite (power_2_nonzero dx (gt_zero_nonzero dx Hdx)). reflexivity.
Qed.

(** In exact arithmetic a grid of at least two nodes and two time levels
    on a rod of positive length has its step sizes defined, and a ratio. *)
Lemma grid_defined (nt nx : Z) (alpha L tmax : T) :
  (2 <= nt)%Z -> (2 <= nx)%Z -> (L >? of_int 0) = true ->
  let dx := quot L (of_int (nx - 1)) in
  let dt := quot tmax (of_int (nt - 1)) in
  truediv L (of_int (nx - 1)) = Ok dx
  /\ truediv tmax (of_int (nt - 1)) = Ok dt
  /\ truediv (alpha * dt) (power dx 2) = Ok (ratio dx dt alpha).
Proof.
  intros Hnt Hnx HL dx dt. split; [|split].
  - apply truediv_of_int. lia.
  - apply truediv_of_int. lia.
  - unfold truediv. rewrite power_2_nonzero; [reflexivity|].
    apply quot_nonzero; [apply gt_zero_nonzero, HL|].
    apply is_zero_false, of_int_nonzero. lia.
Qed.

Lemma update_constant (r c : T) (n i : nat) :
  (1 <= i)%nat -> (i + 1 < n)%nat -> update r (repeat c n) i = c.
Proof.
  intros H1 H2. unfold update.
  rewrite !nth_repeat_lt by lia. apply stencil_weights.
Qed.

Lemma advance_constant (r c : T) (n : nat) :
  (2 <= n)%nat -> advance r (repeat c n) = repeat c n.
Proof.
  intros Hn. apply (advance_ext r _ _ c); rewrite ?repeat_length;
    try reflexivity; [exact Hn|].
  intros i Hi. rewrite nth_repeat_lt by lia.
  symmetry. apply update_constant; lia.
Qed.

Lemma iter_advance_constant (k : nat) (r c : T) (n : nat) :
  (2 <= n)%nat -> Nat.iter k (advance r) (repeat c n) = repeat c n.
Proof.
  intros Hn. induction k as [|k IH]; [reflexivity|].
  simpl. rewrite IH. apply advance_constant. exact Hn.
Qed.

End ExactFacts.

(** ** Properties of [step] and [heat] over any number type *)

Section Structural.

Context {T : Type} {N : Number T}.

Local Open Scope num_scope.

Lemma step_boundary (u v : list T) (dx dt alpha : T) :
  step u dx dt alpha = Ok v ->
  getitem v 0 = getitem u 0 /\ getitem v (-1) = getitem u (-1).
Proof.
  intros H. apply step_Ok_inv in H. subst v.
  split; [apply advance_getitem_first|apply advance_getitem_last].
Qed.

Lemma march_boundary (n : nat) (u v : list T) (dx dt alpha : T) :
  march n u dx dt alpha = Ok v ->
  getitem v 0 = getitem u 0 /\ getitem v (-1) = getitem u (-1).
Proof.
  intros H. apply march_Ok_inv in H. subst v. apply iter_advance_getitem.
Qed.

Lemma heat_boundary (u v : list T) (nt nx : Z) (alpha L tmax : T) :
  heat u nt nx alpha L tmax = Ok v ->
  getitem v 0 = getitem u 0 /\ getitem v (-1) = getitem u (-1).
Proof.
  unfold heat. intros H.
  apply bind_Ok_inv in H. destruct H as [dx [_ H]].
  apply bind_Ok_inv in H. destruct H as [dt [_ H]].
  exact (march_boundary _ _ _ _ _ _ H).
Qed.

Lemma apply_step_times_march (k : nat) (u : list T) (dx dt alpha : T) :
  march k u dx dt alpha = apply_step_times k u dx dt alpha.
Proof.
  induction k as [|k IH]; [reflexivity|].
  rewrite march_succ, IH. reflexivity.
Qed.

(** C1. For a profile [u] of [N >= 3] nodes and positive [dx], [dt],
    [alpha] with [r = alpha * dt / dx ** 2] not above [0.5], [step]
    returns a profile [v] of the same length with
    [v[i] = r * u[i + 1] + (1 - 2 * r) * u[i] + r * u[i - 1]] at every
    interior index [1 <= i <= N - 2]: every entry on the right-hand side
    is an entry of the input [u], none is an entry of [v]. *)
Theorem step_interior (u : list T) (dx dt alpha r : T) :
  (3 <= length u)%nat ->
  (dx >? of_int 0) = true ->
  (dt >? of_int 0) = true ->
  (alpha >? of_int 0) = true ->
  truediv (alpha * dt) (power dx 2) = Ok r ->
  (r >? half) = false ->
  exists v,
    step u dx dt alpha = Ok v
    /\ length v = length u
    /\ forall (i : nat) (d : T),
        (1 <= i <= length u - 2)%nat ->
        nth i v d =
        r * nth (i + 1) u d
        + (of_int 1 - of_int 2 * r) * nth i u d
        + r * nth (i - 1) u d.
Proof.
  intros Hlen _ _ _ Hdiv Hr.
  apply ratio_Ok_inv in Hdiv. destruct Hdiv as [Hz ->].
  exists (advance (ratio dx dt alpha) u). split; [|split].
  - apply step_stable; assumption.
  - apply advance_length. lia.
  - intros i d Hi. rewrite advance_interior by exact Hi. unfold update.
    rewrite (nth_indep u (of_int 0) d (n := i + 1)) by lia.
    rewrite (nth_indep u (of_int 0) d (n := i)) by lia.
    rewrite (nth_indep u (of_int 0) d (n := i - 1)) by lia.
    reflexivity.
Qed.

(** C3. Boundary invariance: a profile of at least three nodes has a
    first entry [u[0]] and a last entry [u[-1]], and whenever [step]
    returns a profile [v] (the parameters did not trigger the instability
    failure), [v[0] == u[0]] and [v[-1] == u[-1]]; the same holds for the
    profile returned after any number [n] of iterations of the driver's
    loop, and for the profile [heat] returns for any [nt]. *)
Theorem boundary_invariance (u : list T) :
  (3 <= length u)%nat ->
  exists first last : T,
    getitem u 0 = Ok first
    /\ getitem u (-1) = Ok last
    /\ (forall dx dt alpha v,
           step u dx dt alpha = Ok v ->
           getitem v 0 = Ok first /\ getitem v (-1) = Ok last)
    /\ (forall n dx dt alpha v,
           march n u dx dt alpha = Ok v ->
           getitem v 0 = Ok first /\ getitem v (-1) = Ok last)
    /\ (forall nt nx alpha L tmax v,
           heat u nt nx alpha L tmax = Ok v ->
           getitem v 0 = Ok first /\ getitem v (-1) = Ok last).
Proof.
  intros Hlen. destruct u as [|a u]; [simpl in Hlen; lia|].
  exists a, (last (a :: u) a).
  assert (H0 : getitem (a :: u) 0 = Ok a) by reflexivity.
  assert (H1 : getitem (a :: u) (-1) = Ok (last (a :: u) a))
    by (apply getitem_minus_1; discriminate).
  split; [exact H0|]. split; [exact H1|]. rewrite <- H0, <- H1.
  split; [|split].
  - intros dx dt alpha v. apply step_boundary.
  - intros n dx dt alpha v. apply march_boundary.
  - intros nt nx alpha L tmax v. apply heat_boundary.
Qed.

(** C4. For [nt >= 2], [nx >= 3] and positive [alpha], [L], [tmax],
    with [dx = L / (nx - 1)] and [dt = tmax / (nt - 1)] as [heat]
    computes them, the result of [heat] is that of applying [step] exactly
    [nt - 1] times in sequence, each application on the output of the
    previous one, with the same [dx], [dt] and [alpha] (a failing
    application included). *)
Theorem heat_applies_step
    (u : list T) (nt nx : Z) (alpha L tmax dx dt : T) :
  (2 <= nt)%Z -> (3 <= nx)%Z ->
  (alpha >? of_int 0) = true ->
  (L >? of_int 0) = true ->
  (tmax >? of_int 0) = true ->
  truediv L (of_int (nx - 1)) = Ok dx ->
  truediv tmax (of_int (nt - 1)) = Ok dt ->
  heat u nt nx alpha L tmax =
  apply_step_times (Z.to_nat (nt - 1)) u dx dt alpha.
Proof.
  intros _ _ _ _ _ Hdx Hdt.
  rewrite (heat_march u nt nx alpha L tmax dx dt Hdx Hdt).
  apply apply_step_times_march.
Qed.

(** C6, as the code has it. For every initial profile and valid [nx]
    (at least three, the length of the profile) and positive [alpha], [L],
    [tmax], [heat] called with [nt = 1] raises [ZeroDivisionError]:
    [tmax / (nt - 1)] divides by zero before the loop is reached.  No step
    is performed and no profile is returned. *)
Theorem heat_single_time_level (u : list T) (nx : Z) (alpha L tmax : T) :
  (3 <= nx)%Z -> nx = len u ->
  (alpha >? of_int 0) = true ->
  (L >? of_int 0) = true ->
  (tmax >? of_int 0) = true ->
  is_zero (of_int 0) = true ->
  heat u 1 nx alpha L tmax = Raise ZeroDivisionError.
Proof.
  intros _ _ _ _ _ H0. unfold heat. unfold truediv at 1.
  destruct (is_zero (of_int (nx - 1))); [reflexivity|].
  cbn [bind]. change (1 - 1)%Z with 0%Z.
  unfold truediv. rewrite H0. reflexivity.
Qed.

(** C9. Below three nodes the comprehension of [step] is empty and, when
    [r = alpha * dt / dx ** 2] is not above [0.5], the output is
    [u[:1] + u[-1:]]: a profile of length two is returned as it is, and a
    profile [[a]] of length one becomes [[a, a]], of length two. *)
Theorem step_short_profile (dx dt alpha r : T) :
  truediv (alpha * dt) (power dx 2) = Ok r ->
  (r >? half) = false ->
  (forall u, (length u < 3)%nat ->
     range 1 (len u - 1) = []
     /\ step u dx dt alpha = Ok (slice_to_1 u ++ slice_from_minus_1 u))
  /\ (forall a b, step [a; b] dx dt alpha = Ok [a; b])
  /\ (forall a, step [a] dx dt alpha = Ok [a; a]
                /\ length [a; a] <> length [a]).
Proof.
  intros Hdiv Hr. apply ratio_Ok_inv in Hdiv. destruct Hdiv as [Hz ->].
  split; [|split].
  - intros u Hu.
    assert (Hrange : range 1 (len u - 1) = []).
    { unfold range, len.
      replace (Z.to_nat (Z.of_nat (length u) - 1 - 1)) with O by lia.
      reflexivity. }
    split; [exact Hrange|].
    rewrite (step_stable u _ _ _ Hz Hr). unfold advance.
    rewrite Hrange. reflexivity.
  - intros a b. rewrite (step_stable [a; b] _ _ _ Hz Hr). reflexivity.
  - intros a. split; [|discriminate].
    rewrite (step_stable [a] _ _ _ Hz Hr). reflexivity.
Qed.

End Structural.

(** ** Properties that rest on exact arithmetic *)

Section Exact.

Context {T : Type} {N : Number T} {E : ExactNumber T}.

Local Open Scope num_scope.


(** C10. A constant profile of [n >= 3] nodes is a fixed point of
    [step] when [r = alpha * dt / dx ** 2] is not above [0.5], because the
    weights [r + (1 - 2 * r) + r] of the stencil sum to one in exact
    arithmetic; hence [heat] returns a constant profile unchanged under
    stable parameters. *)
Theorem constant_profile_fixed (c : T) (n : nat) :
  (3 <= n)%nat ->
  (forall r, r + (of_int 1 - of_int 2 * r) + r = of_int 1)
  /\ (forall dx dt alpha r,
         truediv (alpha * dt) (power dx 2) = Ok r ->
         (r >? half) = false ->
         step (repeat c n) dx dt alpha = Ok (repeat c n))
  /\ (forall nt nx alpha L tmax,
         (2 <= nt)%Z -> (2 <= nx)%Z ->
         (L >? of_int 0) = true ->
         (ratio (quot L (of_int (nx - 1))) (quot tmax (of_int (nt - 1))) alpha
          >? half) = false ->
         heat (repeat c n) nt nx alpha L tmax = Ok (repeat c n)).
Proof.
  intros Hn. split; [|split].
  - apply weights_sum.
  - intros dx dt alpha r Hdiv Hr.
    apply ratio_Ok_inv in Hdiv. destruct Hdiv as [Hz ->].
    rewrite (step_stable _ _ _ _ Hz Hr), advance_constant by lia.
    reflexivity.
  - intros nt nx alpha L tmax Hnt Hnx HL Hr.
    destruct (grid_defined nt nx alpha L tmax Hnt Hnx HL) as [Hdx [Hdt Hq]].
    rewrite (heat_march _ nt nx alpha L tmax _ _ Hdx Hdt).
    apply ratio_Ok_inv in Hq. destruct Hq as [Hz _].
    rewrite (march_stable _ _ _ _ _ Hz Hr), iter_advance_constant by lia.
    reflexivity.
Qed.

End Exact.

(** ** The inputs of [test_diffusion.py] *)

Lemma map_this_inj (l l' : list Qc) : map this l = map this l' -> l = l'.
Proof.
  revert l'. induction l as [|x l IH]; intros [|y l'] H;
    try discriminate; [reflexivity|].
  simpl in H. injection H as Hx Hl.
  f_equal; [apply Qc_decomp, Hx|apply IH, Hl].
Qed.

Lemma fractions_inj (m m' : result (list Qc)) :
  fractions m = fractions m' -> m = m'.
Proof.
  destruct m as [l|e], m' as [l'|e']; simpl; intros H;
    try discriminate; [|congruence].
  f_equal. apply map_this_inj. congruence.
Qed.

Lemma test_step_ratio :
  ratio (Rational.dec 4 100) (Rational.dec 2 100) (Rational.dec 1 100)
  = Rational.dec 125 1000.
Proof. apply Qc_decomp. vm_compute. reflexivity. Qed.

Lemma test_step_value :
  step test_profile
       (Rational.dec 4 100) (Rational.dec 2 100) (Rational.dec 1 100)
  = Ok [of_int 0; Rational.dec 875 1000; Rational.dec 875 1000; of_int 0].
Proof. apply fractions_inj. vm_compute. reflexivity. Qed.

(** C2. Whenever [r = alpha * dt / dx ** 2] is above [0.5], [step]
    raises its exception, whatever the profile, and returns no profile.
    In particular for [[0, 1, 1, 0]], [dx = 0.04], [dt = 0.02],
    [alpha = 0.1], where [r = 1.25]: in exact arithmetic and in binary64
    arithmetic. *)
Theorem stability_gate :
  (forall (T : Type) (N : Number T) (u : list T) (dx dt alpha r : T),
      truediv (alpha * dt)%num (power dx 2) = Ok r ->
      gt r half = true ->
      step u dx dt alpha = Raise Exception)
  /\ (ratio (Rational.dec 4 100) (Rational.dec 2 100) (Rational.dec 1 10)
      = Rational.dec 125 100
      /\ step [of_int 0; of_int 1; of_int 1; of_int 0]
              (Rational.dec 4 100) (Rational.dec 2 100) (Rational.dec 1 10)
         = Raise Exception)
  /\ (ratio (Binary64.dec 4 100) (Binary64.dec 2 100) (Binary64.dec 1 10)
      = Binary64.dec 125 100
      /\ step [of_int 0; of_int 1; of_int 1; of_int 0]
              (Binary64.dec 4 100) (Binary64.dec 2 100) (Binary64.dec 1 10)
         = Raise Exception).
Proof.
  split; [|split; split].
  - intros T N u dx dt alpha r Hdiv Hr.
    apply ratio_Ok_inv in Hdiv. destruct Hdiv as [Hz ->].
    apply step_unstable; assumption.
  - apply Qc_decomp. vm_compute. reflexivity.
  - apply fractions_inj. vm_compute. reflexivity.
  - vm_compute. reflexivity.
  - vm_compute. reflexivity.
Qed.

(** C7. [step([0, 1, 1, 0], 0.04, 0.02, 0.01)] has [r = 0.125] and
    returns exactly [[0, 0.875, 0.875, 0]]: in exact arithmetic, and in
    binary64 arithmetic, where the roundings of [0.01 * 0.02] and of
    [0.04 ** 2] cancel in the quotient. *)
Theorem step_test_vector :
  (ratio (Rational.dec 4 100) (Rational.dec 2 100) (Rational.dec 1 100)
   = Rational.dec 125 1000
   /\ step [of_int 0; of_int 1; of_int 1; of_int 0]
           (Rational.dec 4 100) (Rational.dec 2 100) (Rational.dec 1 100)
      = Ok [of_int 0; Rational.dec 875 1000; Rational.dec 875 1000;
            of_int 0])
  /\ (ratio (Binary64.dec 4 100) (Binary64.dec 2 100) (Binary64.dec 1 100)
      = Binary64.dec 125 1000
      /\ step [of_int 0; of_int 1; of_int 1; of_int 0]
              (Binary64.dec 4 100) (Binary64.dec 2 100) (Binary64.dec 1 100)
         = Ok [of_int 0; Binary64.dec 875 1000; Binary64.dec 875 1000;
               of_int 0]).
Proof.
  split; split.
  - exact test_step_ratio.
  - exact test_step_value.
  - vm_compute. reflexivity.
  - vm_compute. reflexivity.
Qed.

(** C6, as stated, fails: with [nt = 1] the initial profile is not
    returned. *)
Lemma heat_single_time_level_counterexample :
  let u := [of_int 0; of_int 1; of_int 0] in
  heat u 1 3 (Rational.dec 1 100) (of_int 1) (of_int 1)
  = Raise ZeroDivisionError
  /\ heat u 1 3 (Rational.dec 1 100) (of_int 1) (of_int 1) <> Ok u.
Proof.
  assert (H : heat [of_int 0; of_int 1; of_int 0] 1 3
                (Rational.dec 1 100) (of_int 1) (of_int 1)
              = Raise ZeroDivisionError)
    by (apply fractions_inj; vm_compute; reflexivity).
  cbv zeta. split; [exact H|]. rewrite H. discriminate.
Qed.

(** ** The convergence test *)

Section Convergence.

Import Real TestDiffusion.

Local Open Scope R_scope.

(** *** Bounds on [PI], [cos] and [exp] *)

Lemma PI_bounds : 31415 / 10000 < PI < 31421 / 10000.
Proof.
  destruct (PI_2_3_7_ineq 1) as [Hlo Hhi].
  unfold tg_alt, PI_2_3_7_tg, Ratan_seq in Hlo, Hhi.
  simpl in Hlo, Hhi.
  split; lra.
Qed.

Lemma cos_bounds (a : R) :
  - PI / 2 <= a <= PI / 2 ->
  1 - a ^ 2 / 2 <= cos a <= 1 - a ^ 2 / 2 + a ^ 4 / 24.
Proof.
  intros [Hlo Hhi].
  destruct (cos_bound a 0 Hlo Hhi) as [H1 H2].
  unfold cos_approx, cos_term in H1, H2. simpl in H1, H2.
  split; lra.
Qed.

Lemma exp_neg_bounds (c : R) : 0 <= c -> 1 - c <= exp (- c) <= / (1 + c).
Proof.
  intros Hc. split.
  - pose proof (exp_ineq1_le (- c)). lra.
  - rewrite exp_Ropp. apply Rinv_le_contravar; [lra|apply exp_ineq1_le].
Qed.

Lemma Rinv_le_bound (d q : R) : 0 < d -> 1 <= q * d -> / d <= q.
Proof.
  intros Hd Hq. apply Rmult_le_reg_r with d; [exact Hd|].
  rewrite Rinv_l by lra. exact Hq.
Qed.

Lemma node_angle_sqr :
  (31415 / 190000) ^ 2 <= (PI / 19) ^ 2 <= (31421 / 190000) ^ 2.
Proof.
  destruct PI_bounds as [Hlo Hhi].
  split; apply pow_incr; lra.
Qed.

Lemma growth_bounds (r : R) :
  0 <= r ->
  1 - r * (31421 / 190000) ^ 2
  <= growth r (PI / 19)
  <= 1 - r * ((31415 / 190000) ^ 2 - ((31421 / 190000) ^ 2) ^ 2 / 12).
Proof.
  intros Hr. unfold growth.
  destruct PI_bounds as [Hlo Hhi].
  destruct (cos_bounds (PI / 19)) as [Hc1 Hc2]; [split; lra|].
  destruct node_angle_sqr as [Ht1 Ht2].
  set (t := (PI / 19) ^ 2) in *.
  replace ((PI / 19) ^ 4) with (t ^ 2) in Hc2 by (unfold t; ring).
  assert (Ht3 : t ^ 2 <= ((31421 / 190000) ^ 2) ^ 2)
    by (apply pow_incr; split; [unfold t; apply pow2_ge_0|exact Ht2]).
  split.
  - apply Rplus_le_compat_l, Ropp_le_contravar.
    rewrite Rmult_assoc, (Rmult_comm 2), Rmult_assoc.
    apply Rmult_le_compat_l; lra.
  - apply Rplus_le_compat_l, Ropp_le_contravar.
    rewrite (Rmult_comm 2), Rmult_assoc.
    apply Rmult_le_compat_l; lra.
Qed.

Lemma decay_bounds (k : R) :
  0 <= k ->
  1 - k * (31421 / 10000) ^ 2
  <= exp (- (k * PI ^ 2))
  <= / (1 + k * (31415 / 10000) ^ 2).
Proof.
  intros Hk. destruct PI_bounds as [Hlo Hhi].
  assert (Hp : (31415 / 10000) ^ 2 <= PI ^ 2 <= (31421 / 10000) ^ 2)
    by (split; apply pow_incr; lra).
  assert (Hc : k * (31415 / 10000) ^ 2 <= k * PI ^ 2
               <= k * (31421 / 10000) ^ 2)
    by (split; apply Rmult_le_compat_l; lra).
  assert (H0 : 0 <= k * (31415 / 10000) ^ 2)
    by (apply Rmult_le_pos; [exact Hk|apply pow2_ge_0]).
  destruct (exp_neg_bounds (k * PI ^ 2)) as [He1 He2]; [lra|].
  split; [lra|].
  apply Rle_trans with (1 := He2).
  apply Rinv_le_contravar; lra.
Qed.

(** Nine steps of the scheme against the exact decay, for the three
    parameter pairs of the test: [k = tmax * alpha / L ** 2] and the ratio
    is [361 * k / 9]. *)
Lemma growth_close_to_decay (k : R) :
  k = 1 / 200 \/ k = 1 / 800 \/ k = 1 / 100 ->
  Rabs (growth (361 * k / 9) (PI / 19) ^ 9 - exp (- (k * PI ^ 2)))
  <= 1 / 100.
Proof.
  intros Hk.
  assert (Hk0 : 0 <= k) by (destruct Hk as [->|[->| ->]]; lra).
  destruct (growth_bounds (361 * k / 9)) as [Hg1 Hg2]; [lra|].
  destruct (decay_bounds k Hk0) as [He1 He2].
  set (g := growth (361 * k / 9) (PI / 19)) in *.
  set (E := exp (- (k * PI ^ 2))) in *.
  set (glo := 1 - 361 * k / 9 * (31421 / 190000) ^ 2) in *.
  set (ghi := 1 - 361 * k / 9 *
                 ((31415 / 190000) ^ 2
                  - ((31421 / 190000) ^ 2) ^ 2 / 12)) in *.
  assert (Hglo : 0 <= glo) by (unfold glo; destruct Hk as [->|[->| ->]]; lra).
  assert (Hp1 : glo ^ 9 <= g ^ 9) by (apply pow_incr; lra).
  assert (Hp2 : g ^ 9 <= ghi ^ 9) by (apply pow_incr; lra).
  assert (Hhi : ghi ^ 9 - (1 - k * (31421 / 10000) ^ 2) <= 1 / 100)
    by (unfold ghi; destruct Hk as [->|[->| ->]]; lra).
  assert (Hlo : / (1 + k * (31415 / 10000) ^ 2) <= glo ^ 9 + 1 / 100)
    by (unfold glo; destruct Hk as [->|[->| ->]];
        (apply Rinv_le_bound; lra)).
  apply Rabs_le. lra.
Qed.

(** *** Sine profiles under [step] *)

Lemma sine_mode_length (theta : R) (n : nat) (a : R) :
  length (sine_mode theta n a) = n.
Proof. unfold sine_mode. rewrite length_map, length_seq. reflexivity. Qed.

Lemma sine_mode_nth (theta : R) (n : nat) (a d : R) (i : nat) :
  (i < n)%nat -> nth i (sine_mode theta n a) d = a * sin (INR i * theta).
Proof.
  intros Hi. unfold sine_mode.
  rewrite (nth_indep _ d ((fun k => a * sin (INR k * theta)) O))
    by (rewrite length_map, length_seq; exact Hi).
  rewrite (map_nth (fun k => a * sin (INR k * theta))), seq_nth by exact Hi.
  reflexivity.
Qed.

(** A stable step multiplies a sine profile that vanishes at both ends by
    [growth]. *)
Lemma advance_sine_mode (r theta : R) (n : nat) (a : R) :
  (2 <= n)%nat ->
  sin (INR (n - 1) * theta) = 0 ->
  advance r (sine_mode theta n a) = sine_mode theta n (a * growth r theta).
Proof.
  intros Hn Hend. apply (advance_ext r _ _ 0);
    rewrite ?sine_mode_length; try reflexivity; try exact Hn.
  - rewrite !sine_mode_nth by lia. simpl INR.
    rewrite Rmult_0_l, sin_0. ring.
  - rewrite !sine_mode_nth by lia. rewrite Hend. ring.
  - intros i Hi. unfold update.
    rewrite !sine_mode_nth by lia.
    cbn [add sub mul of_int R_Number].
    rewrite plus_INR, minus_INR by lia. simpl (INR 1).
    replace ((INR i + 1) * theta) with (INR i * theta + theta) by ring.
    replace ((INR i - 1) * theta) with (INR i * theta - theta) by ring.
    rewrite sin_plus, sin_minus. unfold growth. ring.
Qed.

Lemma iter_advance_sine_mode (m : nat) (r theta : R) (n : nat) (a : R) :
  (2 <= n)%nat ->
  sin (INR (n - 1) * theta) = 0 ->
  Nat.iter m (advance r) (sine_mode theta n a)
  = sine_mode theta n (a * growth r theta ^ m).
Proof.
  intros Hn Hend. induction m as [|m IH].
  - simpl. f_equal. ring.
  - rewrite Nat.iter_succ, IH, advance_sine_mode by assumption.
    f_equal. simpl. ring.
Qed.

Lemma approx_sine_mode (tol theta : R) (n : nat) (a b : R) :
  Rabs (a - b) <= tol ->
  approx_abs tol (sine_mode theta n a) (sine_mode theta n b).
Proof.
  intros Hab. unfold approx_abs, sine_mode.
  induction (seq 0 n) as [|k l IH]; simpl; constructor; [|exact IH].
  rewrite <- Rmult_minus_distr_r, Rabs_mult.
  apply Rle_trans with (Rabs (a - b) * 1); [|lra].
  apply Rmult_le_compat_l; [apply Rabs_pos|].
  apply Rabs_le. apply SIN_bound.
Qed.

(** *** The two solutions of the test *)

Lemma linspace_nodes (L : R) :
  linspace 0 L nx
  = Ok (map (fun x : Z => 0 + IZR x * (L - 0) / IZR (nx - 1)) (range 0 nx)).
Proof.
  unfold linspace. apply comprehension_map. intros x _.
  change (IZR (nx - 1)) with (@of_int R _ (nx - 1)).
  rewrite truediv_of_int by (unfold nx; lia). reflexivity.
Qed.

Lemma sines_nodes (L : R) (xs : list R) :
  L <> 0 -> sines L xs = Ok (map (fun x : R => sin (PI * x / L)) xs).
Proof.
  intros HL. unfold sines. apply comprehension_map. intros x _.
  rewrite truediv_nonzero by exact HL. reflexivity.
Qed.

Lemma node_angle (L : R) (k : Z) :
  L <> 0 -> PI * (0 + IZR k * (L - 0) / IZR (nx - 1)) / L = IZR k * (PI / 19).
Proof. intros HL. unfold nx. simpl (20 - 1)%Z. field. exact HL. Qed.

Lemma range_1_nx :
  range 1 (nx - 1) = [1; 2; 3; 4; 5; 6; 7; 8; 9; 10; 11; 12; 13; 14; 15; 16;
                      17; 18]%Z.
Proof. reflexivity. Qed.

(** The sine profile on the twenty nodes, written as the test builds it:
    two zero boundary values around the interior values. *)
Lemma sine_mode_nodes (a : R) :
  sine_mode (PI / 19) 20 a
  = [0] ++ map (fun k : Z => a * sin (IZR k * (PI / 19))) (range 1 (nx - 1))
        ++ [0].
Proof.
  rewrite range_1_nx. unfold sine_mode.
  cbn [map seq app]. rewrite !INR_IZR_INZ. simpl Z.of_nat.
  replace (0 * (PI / 19)) with 0 by ring.
  replace (19 * (PI / 19)) with PI by field.
  rewrite sin_0, sin_PI, Rmult_0_r. reflexivity.
Qed.

Lemma initial_sine_mode (L : R) :
  L <> 0 ->
  [0] ++ slice_1_to_minus_1
           (map (fun x : R => sin (PI * x / L))
                (map (fun x : Z => 0 + IZR x * (L - 0) / IZR (nx - 1))
                     (range 0 nx)))
      ++ [0]
  = sine_mode (PI / 19) 20 1.
Proof.
  intros HL. rewrite sine_mode_nodes, map_map. do 2 f_equal.
  change (slice_1_to_minus_1
            (map (fun x : Z =>
                    sin (PI * (0 + IZR x * (L - 0) / IZR (nx - 1)) / L))
                 (range 0 nx)))
    with (map (fun x : Z =>
                 sin (PI * (0 + IZR x * (L - 0) / IZR (nx - 1)) / L))
              (range 1 (nx - 1))).
  apply map_ext. intros k. rewrite node_angle by exact HL. ring.
Qed.

Lemma numerical_sine_mode (L tmax : R) :
  L <> 0 ->
  (ratio (L / 19) (tmax / 9) alpha >? half)%num = false ->
  numerical_solution L tmax
  = Ok (sine_mode (PI / 19) 20
          (growth (ratio (L / 19) (tmax / 9) alpha) (PI / 19) ^ 9)).
Proof.
  intros HL Hr. unfold numerical_solution.
  rewrite linspace_nodes. cbn [bind].
  rewrite sines_nodes by exact HL. cbn [bind].
  rewrite initial_sine_mode by exact HL.
  rewrite (heat_march _ nt nx alpha L tmax (L / 19) (tmax / 9));
    [|exact (truediv_of_int L (nx - 1) ltac:(unfold nx; lia))
     |exact (truediv_of_int tmax (nt - 1) ltac:(unfold nt; lia))].
  change (Z.to_nat (nt - 1)) with 9%nat.
  rewrite march_stable; [|apply power_2_nonzero|exact Hr].
  - rewrite iter_advance_sine_mode.
    + f_equal. f_equal. ring.
    + lia.
    + replace (INR (20 - 1) * (PI / 19)) with PI; [apply sin_PI|].
      simpl INR. field.
  - cbn [of_int R_Number]. intros H. apply HL.
    apply Rmult_eq_reg_r with (/ 19); [|lra].
    unfold Rdiv in H. rewrite H. ring.
Qed.

Lemma analytical_sine_mode (L tmax : R) :
  L <> 0 ->
  analytical_solution L tmax
  = Ok (sine_mode (PI / 19) 20 (exp (- (tmax * alpha / L ^ 2 * PI ^ 2)))).
Proof.
  intros HL. unfold analytical_solution.
  rewrite linspace_nodes. cbn [bind].
  rewrite (comprehension_map _
             (fun x : R =>
                sin (PI * x / L) * exp (- tmax * alpha * power (PI / L) 2))).
  - cbn [bind]. rewrite sine_mode_nodes. do 3 f_equal.
    change (slice_1_to_minus_1
              (map (fun x : Z => 0 + IZR x * (L - 0) / IZR (nx - 1))
                   (range 0 nx)))
      with (map (fun x : Z => 0 + IZR x * (L - 0) / IZR (nx - 1))
                (range 1 (nx - 1))).
    rewrite map_map. apply map_ext. intros k.
    rewrite node_angle by exact HL. rewrite Rmult_comm. do 2 f_equal.
    cbn [power add mul of_int R_Number]. field. exact HL.
  - intros x _. rewrite !truediv_nonzero by exact HL. reflexivity.
Qed.

(** The test passes whenever [k = tmax * alpha / L ** 2] is one of the
    three values of its parameter pairs. *)
Lemma test_heat_passes (L tmax : R) :
  L <> 0 ->
  tmax * alpha / L ^ 2 = 1 / 200
  \/ tmax * alpha / L ^ 2 = 1 / 800
  \/ tmax * alpha / L ^ 2 = 1 / 100 ->
  exists numerical analytical : list R,
    numerical_solution L tmax = Ok numerical
    /\ analytical_solution L tmax = Ok analytical
    /\ length numerical = Z.to_nat nx
    /\ approx_abs (1 / 100) numerical analytical.
Proof.
  intros HL Hk.
  assert (Hratio : ratio (L / 19) (tmax / 9) alpha
                   = 361 * (tmax * alpha / L ^ 2) / 9).
  { unfold ratio. cbn [power quot add mul of_int R_Number]. field. exact HL. }
  assert (Hr : (ratio (L / 19) (tmax / 9) alpha >? half)%num = false).
  { rewrite Hratio. cbn [gt half R_Number].
    destruct (Rlt_dec (1 / 2) (361 * (tmax * alpha / L ^ 2) / 9))
      as [Hlt|_]; [|reflexivity].
    destruct Hk as [Hk|[Hk|Hk]]; rewrite Hk in Hlt; lra. }
  eexists. eexists. split; [|split; [|split]].
  - apply numerical_sine_mode; assumption.
  - apply analytical_sine_mode. exact HL.
  - apply sine_mode_length.
  - apply approx_sine_mode. rewrite Hratio.
    apply growth_close_to_decay. exact Hk.
Qed.

End Convergence.

(** C8. For [(L, tmax)] in [(1, 0.5)], [(2, 0.5)], [(1, 1)], with
    [nt = 10], [nx = 20] and [alpha = 0.01], on the profile of
    [sin(pi * x / L)] sampled at the [nx] nodes with zero boundary values:
    [heat] returns a profile of [nx] entries, each within [1e-2] of the
    entry of the analytical solution at the same node, which is
    [sin(pi * x / L) * exp(-tmax * alpha * (pi / L) ** 2)] at the interior
    nodes and zero at the two boundary nodes.  This is the assertion of
    [test_heat], in real arithmetic. *)
Theorem heat_sine_convergence (L tmax : R) :
  In (L, tmax) TestDiffusion.parameters ->
  exists numerical analytical : list R,
    TestDiffusion.numerical_solution L tmax = Ok numerical
    /\ TestDiffusion.analytical_solution L tmax = Ok analytical
    /\ length numerical = Z.to_nat TestDiffusion.nx
    /\ TestDiffusion.approx_abs (1 / 100) numerical analytical.
Proof.
  intros Hin. apply test_heat_passes.
  - destruct Hin as [H|[H|[H|[]]]]; injection H as <- <-; lra.
  - unfold TestDiffusion.alpha.
    destruct Hin as [H|[H|[H|[]]]]; injection H as <- <-; lra.
Qed.

(** ** Instances of the theorems on the test profile *)

Lemma test_step_defined :
  truediv (Rational.dec 1 100 * Rational.dec 2 100)%num
          (power (Rational.dec 4 100) 2)
  = Ok (Rational.dec 125 1000).
Proof.
  rewrite <- test_step_ratio. apply ratio_defined. vm_compute. reflexivity.
Qed.

Lemma step_interior_witness :
  exists v,
    step test_profile (Rational.dec 4 100) (Rational.dec 2 100)
         (Rational.dec 1 100) = Ok v
    /\ length v = length test_profile
    /\ forall (i : nat) (d : Qc),
        (1 <= i <= length test_profile - 2)%nat ->
        nth i v d =
        (Rational.dec 125 1000 * nth (i + 1) test_profile d
         + (of_int 1 - of_int 2 * Rational.dec 125 1000)
           * nth i test_profile d
         + Rational.dec 125 1000 * nth (i - 1) test_profile d)%num.
Proof.
  apply step_interior;
    [simpl; lia|vm_compute; reflexivity|vm_compute; reflexivity
     |vm_compute; reflexivity|exact test_step_defined
     |vm_compute; reflexivity].
Defined.

Lemma stability_gate_witness :
  step [of_int 3; of_int 4; of_int 5] (of_int 1) (of_int 1)
       (Rational.dec 7 10)
  = Raise Exception.
Proof.
  apply (proj1 stability_gate Qc _ _ _ _ _
           (ratio (of_int 1) (of_int 1) (Rational.dec 7 10)));
    [apply ratio_defined|]; vm_compute; reflexivity.
Defined.

Lemma boundary_invariance_witness :
  exists first last : Qc,
    getitem test_profile 0 = Ok first
    /\ getitem test_profile (-1) = Ok last
    /\ (forall dx dt alpha v,
           step test_profile dx dt alpha = Ok v ->
           getitem v 0 = Ok first /\ getitem v (-1) = Ok last)
    /\ (forall n dx dt alpha v,
           march n test_profile dx dt alpha = Ok v ->
           getitem v 0 = Ok first /\ getitem v (-1) = Ok last)
    /\ (forall nt nx alpha L tmax v,
           heat test_profile nt nx alpha L tmax = Ok v ->
           getitem v 0 = Ok first /\ getitem v (-1) = Ok last).
Proof.
  apply (boundary_invariance test_profile). simpl. lia.
Defined.

Lemma heat_applies_step_witness :
  heat test_profile 3 4 (Rational.dec 1 100) (of_int 1) (of_int 1) =
  apply_step_times 2 test_profile
    (quot (of_int 1) (of_int 3)) (quot (of_int 1) (of_int 2))
    (Rational.dec 1 100).
Proof.
  apply (heat_applies_step test_profile 3 4
           (Rational.dec 1 100) (of_int 1) (of_int 1));
    [lia|lia|vm_compute; reflexivity|vm_compute; reflexivity
     |vm_compute; reflexivity
     |apply (truediv_of_int (of_int 1) 3); lia
     |apply (truediv_of_int (of_int 1) 2); lia].
Defined.


Lemma heat_single_time_level_witness :
  heat test_profile 1 4 (Rational.dec 1 100) (of_int 1) (of_int 1)
  = Raise ZeroDivisionError.
Proof.
  apply heat_single_time_level;
    [lia|reflexivity|vm_compute; reflexivity ..].
Defined.

Lemma step_short_profile_witness :
  step [Rational.dec 7 10]
       (Rational.dec 4 100) (Rational.dec 2 100) (Rational.dec 1 100)
  = Ok [Rational.dec 7 10; Rational.dec 7 10]
  /\ length [Rational.dec 7 10; Rational.dec 7 10]
     <> length [Rational.dec 7 10].
Proof.
  apply (step_short_profile
           (Rational.dec 4 100) (Rational.dec 2 100) (Rational.dec 1 100)
           (Rational.dec 125 1000));
    [exact test_step_defined|vm_compute; reflexivity].
Defined.

Lemma constant_profile_fixed_witness :
  step (repeat (Rational.dec 5 10) 4)
       (Rational.dec 4 100) (Rational.dec 2 100) (Rational.dec 1 100)
  = Ok (repeat (Rational.dec 5 10) 4).
Proof.
  refine (proj1 (proj2 (constant_profile_fixed (Rational.dec 5 10) 4 _))
            (Rational.dec 4 100) (Rational.dec 2 100) (Rational.dec 1 100)
            (Rational.dec 125 1000) test_step_defined _);
    [lia|vm_compute; reflexivity].
Defined.

Lemma heat_sine_convergence_witness :
  exists numerical analytical : list R,
    TestDiffusion.numerical_solution 1 (1 / 2) = Ok numerical
    /\ TestDiffusion.analytical_solution 1 (1 / 2) = Ok analytical
    /\ length numerical = Z.to_nat TestDiffusion.nx
    /\ TestDiffusion.approx_abs (1 / 100) numerical analytical.
Proof.
  apply heat_sine_convergence. simpl. left. reflexivity.
Defined.

(** * Further properties of [step], [heat] and [linspace] *)

(** ** Outcomes and lengths, over any number type *)

Section Outcomes.

Context {T : Type} {N : Number T}.

Local Open Scope num_scope.

Lemma march_cases (n : nat) (u : list T) (dx dt alpha : T) :
  march (S n) u dx dt alpha =
  if is_zero (power dx 2) then Raise ZeroDivisionError
  else if ratio dx dt alpha >? half then Raise Exception
       else Ok (Nat.iter (S n) (advance (ratio dx dt alpha)) u).
Proof.
  destruct (is_zero (power dx 2)) eqn:Hz.
  - apply march_zero_division. exact Hz.
  - destruct (ratio dx dt alpha >? half) eqn:Hr.
    + apply march_unstable; assumption.
    + apply march_stable; assumption.
Qed.

(** [step] and [heat] never raise [IndexError], whatever the profile
    (empty and one-element profiles included) and whatever the parameters:
    for every index [i] of [range(1, len(u) - 1)] the three entries
    [u[i + 1]], [u[i]] and [u[i - 1]] exist, so the comprehension of [step]
    always returns its [len(u) - 2] entries (none below two nodes). *)
Theorem no_index_error (u : list T) :
  (forall i : Z,
      In i (range 1 (len u - 1)) ->
      exists a b c : T,
        getitem u (i + 1) = Ok a
        /\ getitem u i = Ok b
        /\ getitem u (i - 1) = Ok c)
  /\ (forall r : T,
         exists interior : list T,
           comprehension (stencil r u) (range 1 (len u - 1)) = Ok interior
           /\ length interior = (length u - 2)%nat)
  /\ (forall dx dt alpha : T, step u dx dt alpha <> Raise IndexError)
  /\ (forall (nt nx : Z) (alpha L tmax : T),
         heat u nt nx alpha L tmax <> Raise IndexError).
Proof.
  split; [|split; [|split]].
  - intros i Hi. apply in_range in Hi.
    exists (nth (Z.to_nat (i + 1)) u (of_int 0)),
           (nth (Z.to_nat i) u (of_int 0)),
           (nth (Z.to_nat (i - 1)) u (of_int 0)).
    repeat split; apply getitem_nth; lia.
  - intros r. eexists. split; [apply interior_ok|].
    rewrite length_map, range_length. unfold len. lia.
  - intros dx dt alpha. rewrite step_cases.
    destruct (is_zero (power dx 2)); [discriminate|].
    destruct (ratio dx dt alpha >? half); discriminate.
  - intros nt nx alpha L tmax. unfold heat, truediv.
    destruct (is_zero (of_int (nx - 1))); [discriminate|]. cbn [bind].
    destruct (is_zero (of_int (nt - 1))); [discriminate|]. cbn [bind].
    destruct (Z.to_nat (nt - 1)) as [|n]; [discriminate|].
    rewrite march_cases.
    destruct (is_zero (power _ 2)); [discriminate|].
    destruct (ratio _ _ _ >? half); discriminate.
Qed.

(** Whether [step] fails, and with which exception, is decided by [dx],
    [dt] and [alpha] before the profile is read: a failure on one profile
    is the same failure on every profile, and so for [heat]. *)
Theorem failure_independent_of_profile
    (u u' : list T) (nt nx : Z) (dx dt alpha L tmax : T) (e : exn) :
  (step u dx dt alpha = Raise e -> step u' dx dt alpha = Raise e)
  /\ (heat u nt nx alpha L tmax = Raise e ->
      heat u' nt nx alpha L tmax = Raise e).
Proof.
  split.
  - rewrite !step_cases.
    destruct (is_zero (power dx 2)); [trivial|].
    destruct (ratio dx dt alpha >? half); [trivial|discriminate].
  - unfold heat, truediv.
    destruct (is_zero (of_int (nx - 1))); [trivial|]. cbn [bind].
    destruct (is_zero (of_int (nt - 1))); [trivial|]. cbn [bind].
    destruct (Z.to_nat (nt - 1)) as [|n]; [discriminate|].
    rewrite !march_cases.
    destruct (is_zero (power _ 2)); [trivial|].
    destruct (ratio _ _ _ >? half); [trivial|discriminate].
Qed.

Lemma advance_length_all (r : T) (u : list T) :
  length (advance r u) = if (length u =? 1)%nat then 2%nat else length u.
Proof.
  destruct u as [|a [|b u]]; [reflexivity|reflexivity|].
  rewrite advance_length by (simpl; lia). reflexivity.
Qed.

Lemma iter_advance_length_all (n : nat) (r : T) (u : list T) :
  length u <> 1%nat -> length (Nat.iter n (advance r) u) = length u.
Proof.
  intros Hu. induction n as [|n IH]; [reflexivity|].
  rewrite Nat.iter_succ, advance_length_all, IH.
  destruct (Nat.eqb_spec (length u) 1); [contradiction|reflexivity].
Qed.

(** [heat] keeps the number of nodes of every profile that does not have
    exactly one node, whatever [nt] and [nx] (which is never compared with
    [len(u)]); a one-node profile comes back with two nodes as soon as one
    step is taken. *)
Theorem heat_length
    (u v : list T) (nt nx : Z) (alpha L tmax : T) :
  heat u nt nx alpha L tmax = Ok v ->
  (length u <> 1%nat -> length v = length u)
  /\ (length u = 1%nat -> (2 <= nt)%Z -> length v = 2%nat).
Proof.
  unfold heat. intros H.
  apply bind_Ok_inv in H. destruct H as [dx [_ H]].
  apply bind_Ok_inv in H. destruct H as [dt [_ H]].
  apply march_Ok_inv in H. subst v. split.
  - apply iter_advance_length_all.
  - intros Hu Hnt.
    destruct (Z.to_nat (nt - 1)) as [|n] eqn:Hn; [lia|].
    rewrite Nat.iter_succ_r.
    rewrite iter_advance_length_all; rewrite advance_length_all, Hu;
      [reflexivity|discriminate].
Qed.

(** The loop run for [m + n] iterations is the loop run for [m]
    iterations and then, on the profile reached, for [n] more. *)
Lemma march_add (m n : nat) (u : list T) (dx dt alpha : T) :
  march (m + n) u dx dt alpha =
  (v <- march m u dx dt alpha ;; march n v dx dt alpha).
Proof.
  revert u. induction m as [|m IH]; intros u; [reflexivity|].
  cbn [Nat.add march]. rewrite bind_assoc.
  destruct (step u dx dt alpha) as [u'|e]; cbn [bind]; [apply IH|reflexivity].
Qed.

End Outcomes.

(** ** Divisions by zero and time marching, in exact arithmetic *)

Section ExactMarching.

Context {T : Type} {N : Number T} {E : ExactNumber T}.

Local Open Scope num_scope.

Add Ring marching_ring : num_ring.

Lemma is_zero_of_int (z : Z) : is_zero (of_int z) = (z =? 0)%Z.
Proof.
  destruct (Z.eqb_spec z 0) as [->|Hz].
  - apply is_zero_spec. reflexivity.
  - apply of_int_nonzero. exact Hz.
Qed.

Lemma power_2_is_zero (x : T) : is_zero (power x 2) = is_zero x.
Proof.
  destruct (is_zero x) eqn:Hx.
  - apply is_zero_spec in Hx. subst x. apply is_zero_spec. simpl. ring.
  - apply power_2_nonzero. apply is_zero_false. exact Hx.
Qed.

Lemma quot_is_zero (x y : T) :
  y <> of_int 0 -> is_zero (quot x y) = is_zero x.
Proof.
  intros Hy. destruct (is_zero x) eqn:Hx.
  - apply is_zero_spec in Hx. subst x. apply is_zero_spec.
    destruct (mul_integral (quot (of_int 0) y) y (quot_mul _ y Hy))
      as [H|H]; [exact H|contradiction].
  - apply is_zero_false. apply quot_nonzero; [|exact Hy].
    apply is_zero_false. exact Hx.
Qed.

Lemma quot_cancel (x y : T) : y <> of_int 0 -> quot (y * x) y = x.
Proof.
  intros Hy. pose proof (quot_mul (y * x) y Hy) as H.
  assert (H0 : (quot (y * x) y - x) * y = of_int 0).
  { transitivity (quot (y * x) y * y - x * y); [ring|]. rewrite H. ring. }
  destruct (mul_integral _ _ H0) as [Hq|Hq]; [|contradiction].
  transitivity (quot (y * x) y - x + x); [ring|]. rewrite Hq. ring.
Qed.

(** [step] raises [ZeroDivisionError] exactly when [dx] is zero, whatever
    the profile, [dt] and [alpha]: the division comes before the stability
    test, so a zero [dx] is never reported as an instability. *)
Theorem step_zero_division_iff (u : list T) (dx dt alpha : T) :
  step u dx dt alpha = Raise ZeroDivisionError <-> dx = of_int 0.
Proof.
  rewrite step_cases, power_2_is_zero. split.
  - destruct (is_zero dx) eqn:Hz; [intros _; apply is_zero_spec, Hz|].
    destruct (ratio dx dt alpha >? half); discriminate.
  - intros ->. rewrite (proj2 (is_zero_spec _) eq_refl). reflexivity.
Qed.

(** [heat] raises [ZeroDivisionError] exactly when [nx = 1], or [nt = 1],
    or at least one step is taken ([nt >= 2]) on a rod of length [L = 0].
    With [nt <= 0] a zero [L] goes unnoticed. *)
Theorem heat_zero_division_iff
    (u : list T) (nt nx : Z) (alpha L tmax : T) :
  heat u nt nx alpha L tmax = Raise ZeroDivisionError
  <-> (nx = 1%Z \/ nt = 1%Z \/ ((2 <= nt)%Z /\ L = of_int 0)).
Proof.
  unfold heat, truediv. rewrite !is_zero_of_int.
  destruct (Z.eqb_spec (nx - 1) 0) as [Hnx|Hnx].
  { split; [intros _; left; lia|reflexivity]. }
  cbn [bind]. destruct (Z.eqb_spec (nt - 1) 0) as [Hnt|Hnt].
  { split; [intros _; right; left; lia|reflexivity]. }
  cbn [bind].
  assert (Hc : of_int (nx - 1) <> of_int 0)
    by (intros H; apply Hnx, (of_int_zero _ H)).
  destruct (Z.to_nat (nt - 1)) as [|n] eqn:Hn.
  - split; [discriminate|]. intros [H|[H|[H _]]]; lia.
  - rewrite march_cases, power_2_is_zero, (quot_is_zero L _ Hc). split.
    + destruct (is_zero L) eqn:Hz.
      * intros _. right. right. split; [lia|apply is_zero_spec, Hz].
      * destruct (ratio _ _ _ >? half); discriminate.
    + intros [H|[H|[_ H]]]; [lia|lia|].
      rewrite (proj2 (is_zero_spec L) H). reflexivity.
Qed.

(** With [nt <= 0] (and [nx] other than [1]) [range(nt - 1)] is empty:
    [heat] returns the initial profile as it is and never evaluates the
    stability ratio, so unstable parameters and a zero [L] pass. *)
Theorem heat_no_time_step (u : list T) (nt nx : Z) (alpha L tmax : T) :
  (nt <= 0)%Z -> nx <> 1%Z -> heat u nt nx alpha L tmax = Ok u.
Proof.
  intros Hnt Hnx. unfold heat.
  rewrite !truediv_of_int by lia. cbn [bind].
  replace (Z.to_nat (nt - 1)) with O by lia. reflexivity.
Qed.

Lemma heat_uniform_steps (k : nat) (u : list T) (nx : Z) (alpha L dt : T) :
  (1 <= k)%nat ->
  heat u (Z.of_nat k + 1) nx alpha L (of_int (Z.of_nat k) * dt) =
  (dx <- truediv L (of_int (nx - 1)) ;; march k u dx dt alpha).
Proof.
  intros Hk. unfold heat.
  replace (Z.of_nat k + 1 - 1)%Z with (Z.of_nat k) by lia.
  destruct (truediv L (of_int (nx - 1))) as [dx|e]; [|reflexivity].
  cbn [bind]. rewrite truediv_of_int by lia. cbn [bind].
  rewrite quot_cancel by (apply is_zero_false, of_int_nonzero; lia).
  rewrite Nat2Z.id. reflexivity.
Qed.

(** Restarting: marching [m] steps of size [dt] to time [m * dt] and then,
    from the profile reached, [n] more steps to time [n * dt], is marching
    [m + n] steps to time [(m + n) * dt]; if the first call fails, so does
    the single call, with the same exception. *)
Theorem heat_restart (m n : nat) (u : list T) (nx : Z) (alpha L dt : T) :
  (1 <= m)%nat -> (1 <= n)%nat ->
  heat u (Z.of_nat (m + n) + 1) nx alpha L (of_int (Z.of_nat (m + n)) * dt) =
  (v <- heat u (Z.of_nat m + 1) nx alpha L (of_int (Z.of_nat m) * dt) ;;
   heat v (Z.of_nat n + 1) nx alpha L (of_int (Z.of_nat n) * dt)).
Proof.
  intros Hm Hn.
  rewrite (heat_uniform_steps (m + n)) by lia.
  rewrite (heat_uniform_steps m) by lia.
  destruct (truediv L (of_int (nx - 1))) as [dx|e] eqn:Hdx; [|reflexivity].
  cbn [bind]. rewrite march_add.
  destruct (march m u dx dt alpha) as [v|e]; [|reflexivity].
  cbn [bind]. rewrite (heat_uniform_steps n) by lia.
  rewrite Hdx. reflexivity.
Qed.

End ExactMarching.

(** ** The stencil as a linear, symmetric operator, in exact arithmetic *)

Section ExactStencil.

Context {T : Type} {N : Number T} {E : ExactNumber T}.

Local Open Scope num_scope.

Add Ring stencil_ring : num_ring.

Lemma nth_map_default {A B : Type} (f : A -> B) (l : list A) (i : nat)
    (d : A) (d' : B) :
  (i < length l)%nat -> nth i (map f l) d' = f (nth i l d).
Proof.
  intros Hi. rewrite (nth_indep _ d' (f d)) by (rewrite length_map; exact Hi).
  apply map_nth.
Qed.

Lemma advance_nth_last (r : T) (u : list T) (d : T) :
  (2 <= length u)%nat ->
  nth (length u - 1) (advance r u) d = nth (length u - 1) u d.
Proof.
  intros Hu. rewrite <- (advance_length r u Hu) at 1.
  rewrite !nth_last. apply advance_last.
Qed.

Lemma advance_scale (r c : T) (u : list T) :
  advance r (scale c u) = scale c (advance r u).
Proof.
  destruct (Nat.lt_ge_cases (length u) 2) as [Hu|Hu].
  { destruct u as [|a [|b u]]; [reflexivity|reflexivity|simpl in Hu; lia]. }
  unfold scale.
  apply (advance_ext r _ _ (of_int 0)); rewrite ?length_map;
    [exact Hu|apply advance_length, Hu| | |].
  - rewrite !(nth_map_default (mul c) _ _ (of_int 0))
      by (rewrite ?advance_length; lia).
    rewrite advance_first. reflexivity.
  - rewrite !(nth_map_default (mul c) _ _ (of_int 0))
      by (rewrite ?advance_length; lia).
    rewrite advance_nth_last by exact Hu. reflexivity.
  - intros i Hi.
    rewrite (nth_map_default (mul c) _ _ (of_int 0))
      by (rewrite advance_length; lia).
    rewrite advance_interior by exact Hi. unfold update.
    rewrite !(nth_map_default (mul c) _ _ (of_int 0)) by lia. ring.
Qed.

Lemma add_profiles_length (u w : list T) :
  length u = length w -> length (add_profiles u w) = length u.
Proof.
  intros H. unfold add_profiles. rewrite length_map, length_combine. lia.
Qed.

Lemma add_profiles_nth (u w : list T) (i : nat) (d : T) :
  length u = length w -> (i < length u)%nat ->
  nth i (add_profiles u w) d = nth i u (of_int 0) + nth i w (of_int 0).
Proof.
  intros H Hi. unfold add_profiles.
  rewrite (nth_map_default _ _ _ (of_int 0, of_int 0))
    by (rewrite length_combine; lia).
  rewrite combine_nth by exact H. reflexivity.
Qed.

Lemma advance_add_profiles (r : T) (u w : list T) :
  length u = length w ->
  advance r (add_profiles u w)
  = add_profiles (advance r u) (advance r w).
Proof.
  intros H. destruct (Nat.lt_ge_cases (length u) 2) as [Hu|Hu].
  { destruct u as [|a [|b u]], w as [|a' [|b' w]]; try discriminate;
      [reflexivity|reflexivity|simpl in Hu; lia]. }
  assert (Hw : (2 <= length w)%nat) by lia.
  assert (Ha : length (advance r u) = length (advance r w))
    by (rewrite !advance_length; assumption).
  apply (advance_ext r _ _ (of_int 0));
    rewrite ?add_profiles_length, ?advance_length by assumption;
    [exact Hu|reflexivity| | |].
  - rewrite !add_profiles_nth by (rewrite ?advance_length; try assumption; lia).
    rewrite !advance_first. reflexivity.
  - rewrite !add_profiles_nth by (rewrite ?advance_length; try assumption; lia).
    rewrite advance_nth_last by exact Hu. rewrite H at 2.
    rewrite advance_nth_last by exact Hw. rewrite H. reflexivity.
  - intros i Hi.
    rewrite add_profiles_nth by (rewrite ?advance_length; try assumption; lia).
    rewrite !advance_interior by lia. unfold update.
    rewrite !add_profiles_nth by (try assumption; lia). ring.
Qed.

(** The stable step is linear: the step of [c * u] is [c] times the step of
    [u], and the step of the sum of two profiles of equal length is the sum
    of their steps (superposition). *)
Theorem step_linear (u w : list T) (c dx dt alpha r : T) :
  truediv (alpha * dt) (power dx 2) = Ok r ->
  (r >? half) = false ->
  length u = length w ->
  exists v v' : list T,
    step u dx dt alpha = Ok v
    /\ step w dx dt alpha = Ok v'
    /\ step (scale c u) dx dt alpha = Ok (scale c v)
    /\ step (add_profiles u w) dx dt alpha = Ok (add_profiles v v').
Proof.
  intros Hdiv Hr Hlen. apply ratio_Ok_inv in Hdiv. destruct Hdiv as [Hz ->].
  exists (advance (ratio dx dt alpha) u), (advance (ratio dx dt alpha) w).
  rewrite !(step_stable _ _ _ _ Hz Hr).
  rewrite advance_scale, advance_add_profiles by exact Hlen.
  repeat split.
Qed.

Lemma linear_profile_nth (a b : T) (n i : nat) (d : T) :
  (i < n)%nat ->
  nth i (linear_profile a b n) d = a + b * of_int (Z.of_nat i).
Proof.
  intros Hi. unfold linear_profile.
  rewrite (nth_map_default _ _ _ O) by (rewrite length_seq; exact Hi).
  rewrite seq_nth by exact Hi. reflexivity.
Qed.

Lemma advance_linear_profile (r a b : T) (n : nat) :
  (2 <= n)%nat ->
  advance r (linear_profile a b n) = linear_profile a b n.
Proof.
  intros Hn.
  assert (Hl : length (linear_profile a b n) = n)
    by (unfold linear_profile; rewrite length_map, length_seq; reflexivity).
  apply (advance_ext r _ _ (of_int 0)); rewrite ?Hl;
    [exact Hn|reflexivity|reflexivity|reflexivity|].
  intros i Hi. unfold update. rewrite !linear_profile_nth by lia.
  replace (Z.of_nat (i + 1)) with (Z.of_nat i + 1)%Z by lia.
  replace (Z.of_nat i) with (Z.of_nat (i - 1) + 1)%Z at 1 2 3 by lia.
  rewrite !of_int_add, of_int_two. ring.
Qed.

(** A profile that is linear in the node index, [a + b * i], the steady
    state of the rod between two fixed end temperatures, is a fixed point
    of the stable step on two nodes or more, and [heat] returns it
    unchanged under stable parameters. *)
Theorem linear_profile_steady (a b : T) (n : nat) :
  (2 <= n)%nat ->
  (forall dx dt alpha r,
      truediv (alpha * dt) (power dx 2) = Ok r ->
      (r >? half) = false ->
      step (linear_profile a b n) dx dt alpha = Ok (linear_profile a b n))
  /\ (forall nt nx alpha L tmax,
         (2 <= nt)%Z -> (2 <= nx)%Z ->
         (L >? of_int 0) = true ->
         (ratio (quot L (of_int (nx - 1))) (quot tmax (of_int (nt - 1))) alpha
          >? half) = false ->
         heat (linear_profile a b n) nt nx alpha L tmax
         = Ok (linear_profile a b n)).
Proof.
  intros Hn.
  assert (Hit : forall k r,
             Nat.iter k (advance r) (linear_profile a b n)
             = linear_profile a b n).
  { intros k r. induction k as [|k IH]; [reflexivity|].
    rewrite Nat.iter_succ, IH. apply advance_linear_profile, Hn. }
  split.
  - intros dx dt alpha r Hdiv Hr.
    apply ratio_Ok_inv in Hdiv. destruct Hdiv as [Hz ->].
    rewrite (step_stable _ _ _ _ Hz Hr), advance_linear_profile by exact Hn.
    reflexivity.
  - intros nt nx alpha L tmax Hnt Hnx HL Hr.
    destruct (grid_defined nt nx alpha L tmax Hnt Hnx HL) as [Hdx [Hdt Hq]].
    rewrite (heat_march _ nt nx alpha L tmax _ _ Hdx Hdt).
    apply ratio_Ok_inv in Hq. destruct Hq as [Hz _].
    rewrite (march_stable _ _ _ _ _ Hz Hr), Hit. reflexivity.
Qed.

Lemma advance_rev (r : T) (u : list T) :
  advance r (rev u) = rev (advance r u).
Proof.
  destruct (Nat.lt_ge_cases (length u) 2) as [Hu|Hu].
  { destruct u as [|a [|b u]]; [reflexivity|reflexivity|simpl in Hu; lia]. }
  apply (advance_ext r _ _ (of_int 0));
    rewrite ?length_rev, ?advance_length by exact Hu;
    [exact Hu|reflexivity| | |].
  - rewrite !rev_nth by (rewrite ?advance_length; lia).
    rewrite advance_length by exact Hu.
    replace (length u - 1 - 0)%nat with (length u - 1)%nat by lia.
    apply advance_nth_last. exact Hu.
  - rewrite !rev_nth by (rewrite ?advance_length; lia).
    rewrite advance_length by exact Hu.
    replace (length u - S (length u - 1))%nat with O by lia.
    apply advance_first.
  - intros i Hi.
    rewrite rev_nth by (rewrite advance_length; lia).
    rewrite advance_length, advance_interior by lia. unfold update.
    rewrite !rev_nth by lia.
    replace (length u - S i + 1)%nat with (length u - S (i - 1))%nat by lia.
    replace (length u - S i - 1)%nat with (length u - S (i + 1))%nat by lia.
    ring.
Qed.

(** The stencil weighs both neighbours alike: the stable step of the
    mirrored profile is the mirror image of the step. *)
Theorem step_reverse (u : list T) (dx dt alpha r : T) :
  truediv (alpha * dt) (power dx 2) = Ok r ->
  (r >? half) = false ->
  exists v : list T,
    step u dx dt alpha = Ok v /\ step (rev u) dx dt alpha = Ok (rev v).
Proof.
  intros Hdiv Hr. apply ratio_Ok_inv in Hdiv. destruct Hdiv as [Hz ->].
  exists (advance (ratio dx dt alpha) u).
  rewrite !(step_stable _ _ _ _ Hz Hr), advance_rev. split; reflexivity.
Qed.

End ExactStencil.

(** ** The scheme over the reals: maximum principle and sine modes *)

Section RealScheme.

Import Real.

Local Open Scope R_scope.

Lemma within_slices (lo hi : R) (n : nat) (u : list R) :
  within lo hi u -> within lo hi (firstn n u) /\ within lo hi (skipn n u).
Proof.
  unfold within. intros H. apply Forall_app.
  rewrite firstn_skipn. exact H.
Qed.

Lemma within_nth (lo hi : R) (u : list R) (i : nat) (d : R) :
  within lo hi u -> (i < length u)%nat -> lo <= nth i u d <= hi.
Proof.
  unfold within. intros H Hi.
  exact (proj1 (Forall_forall _ _) H _ (nth_In u d Hi)).
Qed.

Lemma update_within (lo hi r : R) (u : list R) (i : nat) :
  0 <= r <= 1 / 2 -> within lo hi u ->
  (1 <= i)%nat -> (i + 1 < length u)%nat ->
  lo <= update r u i <= hi.
Proof.
  intros Hr Hu H1 H2. unfold update. cbn [add sub mul of_int R_Number].
  pose proof (within_nth lo hi u (i + 1) 0 Hu ltac:(lia)) as Ha.
  pose proof (within_nth lo hi u i 0 Hu ltac:(lia)) as Hb.
  pose proof (within_nth lo hi u (i - 1) 0 Hu ltac:(lia)) as Hc.
  split; nra.
Qed.

Lemma advance_within (lo hi r : R) (u : list R) :
  0 <= r <= 1 / 2 -> within lo hi u -> within lo hi (advance r u).
Proof.
  intros Hr Hu. unfold advance, within.
  apply Forall_app. split; [apply (within_slices lo hi 1 u Hu)|].
  apply Forall_app. split; [|apply (within_slices lo hi _ u Hu)].
  apply Forall_forall. intros x Hx.
  apply in_map_iff in Hx. destruct Hx as [i [<- Hi]].
  apply in_range in Hi. unfold len in Hi.
  apply update_within; [exact Hr|exact Hu|lia|lia].
Qed.

Lemma stable_ratio (dx dt alpha : R) :
  dx <> 0 -> 0 <= alpha * dt -> alpha * dt / dx ^ 2 <= 1 / 2 ->
  is_zero (power dx 2) = false
  /\ ratio dx dt alpha = alpha * dt / dx ^ 2
  /\ (ratio dx dt alpha >? half)%num = false
  /\ 0 <= ratio dx dt alpha <= 1 / 2.
Proof.
  intros Hdx Hpos Hle.
  assert (Hq : ratio dx dt alpha = alpha * dt / dx ^ 2)
    by (unfold ratio; cbn [power quot mul of_int R_Number]; field; exact Hdx).
  split; [apply power_2_nonzero; exact Hdx|]. split; [exact Hq|].
  rewrite Hq. split.
  - cbn [gt half R_Number].
    destruct (Rlt_dec (1 / 2) (alpha * dt / dx ^ 2)); [lra|reflexivity].
  - split; [|exact Hle].
    apply Rmult_le_pos; [exact Hpos|].
    apply Rlt_le, Rinv_0_lt_compat.
    pose proof (pow2_ge_0 dx) as H0.
    pose proof (pow_nonzero dx 2 Hdx) as H1. lra.
Qed.

(** Discrete maximum principle, the reason for the bound [r <= 0.5]: with
    [0 <= r <= 0.5] every interior update is a weighted mean of three old
    entries, so a step, and any number of loop iterations, returns a
    profile within the bounds [lo] and [hi] of the profile it is given:
    no new maximum or minimum is created. *)
Theorem maximum_principle
    (lo hi : R) (n : nat) (u : list R) (dx dt alpha : R) :
  dx <> 0 -> 0 <= alpha * dt -> alpha * dt / dx ^ 2 <= 1 / 2 ->
  within lo hi u ->
  (exists v, step u dx dt alpha = Ok v /\ within lo hi v)
  /\ (exists v, march n u dx dt alpha = Ok v /\ within lo hi v).
Proof.
  intros Hdx Hpos Hle Hu.
  destruct (stable_ratio dx dt alpha Hdx Hpos Hle) as [Hz [_ [Hr Hb]]].
  split.
  - exists (advance (ratio dx dt alpha) u).
    split; [apply step_stable; assumption|].
    apply advance_within; assumption.
  - exists (Nat.iter n (advance (ratio dx dt alpha)) u).
    split; [apply march_stable; assumption|].
    induction n as [|n IH]; [exact Hu|].
    rewrite Nat.iter_succ. apply advance_within; assumption.
Qed.

Lemma growth_bound (r theta : R) :
  0 <= r <= 1 / 2 -> -1 <= growth r theta <= 1.
Proof.
  intros Hr. unfold growth. pose proof (COS_bound theta) as Hc.
  split; nra.
Qed.

(** Von Neumann analysis of the scheme: a stable step maps the sine profile
    [a * sin(k * theta)] that vanishes at both ends to the same profile
    with amplitude [a * (1 - 2 * r * (1 - cos theta))], and for
    [0 <= r <= 0.5] that factor lies in [[-1, 1]]: no sine mode is ever
    amplified. *)
Theorem sine_mode_damped (theta a : R) (n : nat) (dx dt alpha : R) :
  (2 <= n)%nat -> sin (INR (n - 1) * theta) = 0 ->
  dx <> 0 -> 0 <= alpha * dt -> alpha * dt / dx ^ 2 <= 1 / 2 ->
  step (sine_mode theta n a) dx dt alpha
  = Ok (sine_mode theta n (a * growth (alpha * dt / dx ^ 2) theta))
  /\ Rabs (a * growth (alpha * dt / dx ^ 2) theta) <= Rabs a.
Proof.
  intros Hn Hend Hdx Hpos Hle.
  destruct (stable_ratio dx dt alpha Hdx Hpos Hle) as [Hz [Hq [Hr Hb]]].
  split.
  - rewrite (step_stable _ _ _ _ Hz Hr), Hq.
    rewrite advance_sine_mode by assumption. reflexivity.
  - rewrite Hq in Hb. rewrite Rabs_mult.
    rewrite <- (Rmult_1_r (Rabs a)) at 2.
    apply Rmult_le_compat_l; [apply Rabs_pos|].
    apply Rabs_le. apply growth_bound. exact Hb.
Qed.

End RealScheme.

Section RealDriver.

Import Real TestDiffusion.

Local Open Scope R_scope.

(** Whenever [heat] returns, for [alpha * tmax >= 0], the profile returned
    lies within the bounds of the initial profile: a returned profile has
    passed the stability test, and then every step obeys the maximum
    principle.  No assumption on [nt], [nx] or [L] is needed. *)
Theorem heat_maximum_principle
    (lo hi : R) (u v : list R) (nt nx : Z) (alpha L tmax : R) :
  0 <= alpha * tmax ->
  within lo hi u ->
  heat u nt nx alpha L tmax = Ok v ->
  within lo hi v.
Proof.
  intros Hpos Hu H. unfold heat in H.
  apply bind_Ok_inv in H. destruct H as [dx [_ H]].
  apply bind_Ok_inv in H. destruct H as [dt [Hdt H]].
  apply truediv_Ok_inv in Hdt. destruct Hdt as [Hnt ->].
  destruct (Z.to_nat (nt - 1)) as [|n] eqn:Hn.
  { injection H as <-. exact Hu. }
  rewrite march_cases in H.
  destruct (is_zero (power dx 2)) eqn:Hz; [discriminate|].
  destruct (ratio dx (quot tmax (of_int (nt - 1))) alpha >? half)%num eqn:Hr;
    [discriminate|].
  assert (Hdx : dx <> 0).
  { intros ->. rewrite power_2_is_zero in Hz.
    cbn [is_zero R_Number] in Hz. destruct (Req_dec_T 0 0); congruence. }
  assert (Hc : 0 < IZR (nt - 1)) by (apply IZR_lt; lia).
  assert (Hb : 0 <= ratio dx (quot tmax (of_int (nt - 1))) alpha <= 1 / 2).
  { cbn [gt half R_Number] in Hr.
    destruct (Rlt_dec (1 / 2) (ratio dx (quot tmax (of_int (nt - 1))) alpha))
      as [|Hle]; [discriminate|].
    split; [|lra]. unfold ratio. cbn [power quot mul of_int R_Number].
    apply Rmult_le_pos.
    - replace (alpha * (tmax / IZR (nt - 1)))
        with (alpha * tmax * / IZR (nt - 1)) by (field; lra).
      apply Rmult_le_pos; [exact Hpos|].
      apply Rlt_le, Rinv_0_lt_compat, Hc.
    - apply Rlt_le, Rinv_0_lt_compat.
      pose proof (pow2_ge_0 dx) as H0.
      pose proof (pow_nonzero dx 2 Hdx) as H1. simpl in H0, H1. lra. }
  assert (Hall : forall k : nat,
            within lo hi
              (Nat.iter k
                 (advance (ratio dx (quot tmax (of_int (nt - 1))) alpha)) u)).
  { intros k. induction k as [|k IH]; [exact Hu|].
    rewrite Nat.iter_succ. apply advance_within; assumption. }
  injection H as <-. exact (Hall (S n)).
Qed.

Lemma linspace_map (start stop : R) (num : Z) :
  num <> 1%Z ->
  linspace start stop num
  = Ok (map (fun x : Z => start + IZR x * (stop - start) / IZR (num - 1))
            (range 0 num)).
Proof.
  intros Hnum. unfold linspace. apply comprehension_map. intros x _.
  change (IZR (num - 1)) with (@of_int R _ (num - 1)).
  rewrite truediv_of_int by lia. reflexivity.
Qed.

(** [linspace] at its edges: asked for a single point it divides by
    [num - 1 = 0] and raises [ZeroDivisionError]; asked for no point, or a
    negative number of points, it returns the empty list without dividing. *)
Theorem linspace_degenerate (start stop : R) :
  linspace start stop 1 = Raise ZeroDivisionError
  /\ forall num : Z, (num <= 0)%Z -> linspace start stop num = Ok [].
Proof.
  split.
  - unfold linspace. change (range 0 1) with [0%Z]. cbn [comprehension].
    change (IZR (1 - 1)) with (@of_int R _ 0).
    unfold truediv. rewrite (proj2 (is_zero_spec _) eq_refl). reflexivity.
  - intros num Hnum. rewrite linspace_map by lia.
    unfold range. replace (Z.to_nat (num - 0)) with O by lia. reflexivity.
Qed.

(** [linspace(start, stop, num)] for [num >= 2], in real arithmetic: [num]
    points, the first is [start], the last is [stop], and consecutive
    points are [(stop - start) / (num - 1)] apart. *)
Theorem linspace_grid (start stop : R) (num : Z) (d : R) :
  (2 <= num)%Z ->
  exists xs : list R,
    linspace start stop num = Ok xs
    /\ length xs = Z.to_nat num
    /\ nth 0 xs d = start
    /\ nth (Z.to_nat num - 1) xs d = stop
    /\ forall i : nat,
        (i + 1 < Z.to_nat num)%nat ->
        nth (i + 1) xs d - nth i xs d = (stop - start) / IZR (num - 1).
Proof.
  intros Hnum. eexists. split; [apply linspace_map; lia|].
  assert (Hc : IZR (num - 1) <> 0) by (apply not_0_IZR; lia).
  assert (Hnth : forall i : nat, (i < Z.to_nat num)%nat ->
            nth i (map (fun x : Z =>
                          start + IZR x * (stop - start) / IZR (num - 1))
                       (range 0 num)) d
            = start + IZR (Z.of_nat i) * (stop - start) / IZR (num - 1)).
  { intros i Hi.
    rewrite (nth_map_default _ _ _ 0%Z)
      by (rewrite range_length; lia).
    rewrite range_nth by lia. reflexivity. }
  split; [rewrite length_map, range_length; f_equal; lia|].
  split; [rewrite Hnth by lia; simpl; field; exact Hc|].
  split.
  - rewrite Hnth by lia.
    replace (Z.of_nat (Z.to_nat num - 1)) with (num - 1)%Z by lia.
    field. exact Hc.
  - intros i Hi. rewrite !Hnth by lia.
    rewrite Nat2Z.inj_add, plus_IZR. simpl (Z.of_nat 1). field. exact Hc.
Qed.

End RealDriver.

(** ** Instances of the further properties *)

Lemma test_step_stable :
  (Rational.dec 125 1000 >? half)%num = false.
Proof. vm_compute. reflexivity. Qed.

Lemma test_step_unstable_value :
  step test_profile (Rational.dec 4 100) (Rational.dec 2 100)
       (Rational.dec 1 10)
  = Raise Exception.
Proof. apply fractions_inj. vm_compute. reflexivity. Qed.

Lemma test_heat_value :
  heat test_profile 3 4 (Rational.dec 1 100) (of_int 1) (of_int 1)
  = Ok (Nat.iter 2
          (advance (ratio (quot (of_int 1) (of_int 3))
                          (quot (of_int 1) (of_int 2))
                          (Rational.dec 1 100)))
          test_profile).
Proof.
  destruct (grid_defined 3 4 (Rational.dec 1 100) (of_int 1) (of_int 1))
    as [Hdx [Hdt Hr]]; [lia|lia|vm_compute; reflexivity|].
  rewrite (heat_march _ 3 4 _ _ _ _ _ Hdx Hdt).
  apply ratio_Ok_inv in Hr. destruct Hr as [Hz _].
  apply (march_stable 2); [exact Hz|vm_compute; reflexivity].
Qed.

Lemma failure_independent_of_profile_witness :
  step [Rational.dec 7 10] (Rational.dec 4 100) (Rational.dec 2 100)
       (Rational.dec 1 10)
  = Raise Exception.
Proof.
  exact (proj1 (failure_independent_of_profile
                  test_profile [Rational.dec 7 10] 3 4
                  (Rational.dec 4 100) (Rational.dec 2 100)
                  (Rational.dec 1 10) (of_int 1) (of_int 1) Exception)
               test_step_unstable_value).
Defined.

Lemma heat_length_witness :
  length (Nat.iter 2
            (advance (ratio (quot (of_int 1) (of_int 3))
                            (quot (of_int 1) (of_int 2))
                            (Rational.dec 1 100)))
            test_profile)
  = length test_profile.
Proof.
  refine (proj1 (heat_length _ _ _ _ _ _ _ test_heat_value) _).
  simpl. discriminate.
Defined.

Lemma step_zero_division_iff_witness :
  step test_profile (of_int 0) (Rational.dec 2 100) (Rational.dec 1 100)
  = Raise ZeroDivisionError.
Proof.
  apply (step_zero_division_iff (E := RationalLaws.Qc_ExactNumber)).
  reflexivity.
Defined.

Lemma heat_zero_division_iff_witness :
  heat test_profile 3 4 (Rational.dec 1 100) (of_int 0) (of_int 1)
  = Raise ZeroDivisionError.
Proof.
  apply (heat_zero_division_iff (E := RationalLaws.Qc_ExactNumber)).
  right. right. split; [lia|reflexivity].
Defined.

Lemma heat_no_time_step_witness :
  heat test_profile 0 4 (Rational.dec 1 100) (of_int 0) (of_int 1)
  = Ok test_profile.
Proof.
  apply (heat_no_time_step (E := RationalLaws.Qc_ExactNumber)); lia.
Defined.

Lemma heat_restart_witness :
  heat test_profile 3 4 (Rational.dec 1 100) (of_int 1)
       (of_int 2 * Rational.dec 1 2)%num
  = (v <- heat test_profile 2 4 (Rational.dec 1 100) (of_int 1)
            (of_int 1 * Rational.dec 1 2)%num ;;
     heat v 2 4 (Rational.dec 1 100) (of_int 1)
          (of_int 1 * Rational.dec 1 2)%num).
Proof.
  exact (heat_restart (E := RationalLaws.Qc_ExactNumber) 1 1 test_profile 4
           (Rational.dec 1 100) (of_int 1) (Rational.dec 1 2)
           (le_n 1) (le_n 1)).
Defined.

Lemma step_linear_witness :
  exists v v' : list Qc,
    step test_profile (Rational.dec 4 100) (Rational.dec 2 100)
         (Rational.dec 1 100) = Ok v
    /\ step (rev test_profile) (Rational.dec 4 100) (Rational.dec 2 100)
            (Rational.dec 1 100) = Ok v'
    /\ step (scale (Rational.dec 5 10) test_profile)
            (Rational.dec 4 100) (Rational.dec 2 100) (Rational.dec 1 100)
       = Ok (scale (Rational.dec 5 10) v)
    /\ step (add_profiles test_profile (rev test_profile))
            (Rational.dec 4 100) (Rational.dec 2 100) (Rational.dec 1 100)
       = Ok (add_profiles v v').
Proof.
  exact (step_linear (E := RationalLaws.Qc_ExactNumber)
           test_profile (rev test_profile) (Rational.dec 5 10)
           (Rational.dec 4 100) (Rational.dec 2 100) (Rational.dec 1 100)
           (Rational.dec 125 1000)
           test_step_defined test_step_stable eq_refl).
Defined.

Lemma linear_profile_steady_witness :
  step (linear_profile (of_int 1) (of_int 2) 4)
       (Rational.dec 4 100) (Rational.dec 2 100) (Rational.dec 1 100)
  = Ok (linear_profile (of_int 1) (of_int 2) 4).
Proof.
  refine (proj1 (linear_profile_steady (E := RationalLaws.Qc_ExactNumber)
                   (of_int 1) (of_int 2) 4 _)
            (Rational.dec 4 100) (Rational.dec 2 100) (Rational.dec 1 100)
            (Rational.dec 125 1000) test_step_defined test_step_stable).
  lia.
Defined.

Lemma step_reverse_witness :
  exists v : list Qc,
    step test_profile (Rational.dec 4 100) (Rational.dec 2 100)
         (Rational.dec 1 100) = Ok v
    /\ step (rev test_profile) (Rational.dec 4 100) (Rational.dec 2 100)
            (Rational.dec 1 100) = Ok (rev v).
Proof.
  exact (step_reverse (E := RationalLaws.Qc_ExactNumber) test_profile
           (Rational.dec 4 100) (Rational.dec 2 100) (Rational.dec 1 100)
           (Rational.dec 125 1000) test_step_defined test_step_stable).
Defined.

Lemma unit_profile_within : within 0 1 [0; 1; 0]%R.
Proof. repeat constructor; lra. Qed.

Lemma maximum_principle_witness :
  (exists v, step [0; 1; 0]%R 1%R 1%R (1 / 4)%R = Ok v /\ within 0 1 v)
  /\ (exists v, march 5 [0; 1; 0]%R 1%R 1%R (1 / 4)%R = Ok v
                /\ within 0 1 v).
Proof.
  apply maximum_principle; [lra|lra|lra|exact unit_profile_within].
Defined.

Lemma unit_heat_value :
  heat [0; 1; 0]%R 2 3 (1 / 16)%R 1%R 1%R
  = Ok (advance (ratio (1 / 2)%R 1%R (1 / 16)%R) [0; 1; 0]%R).
Proof.
  rewrite (heat_march _ 2 3 _ _ _ (1 / 2)%R 1%R).
  - apply (march_stable 1).
    + apply power_2_nonzero. cbn [of_int Real.R_Number]. lra.
    + replace (ratio (1 / 2)%R 1%R (1 / 16)%R) with (1 / 4)%R
        by (unfold ratio; cbn [power quot mul of_int Real.R_Number]; field).
      cbn [gt half Real.R_Number].
      destruct (Rlt_dec (1 / 2) (1 / 4)); [lra|reflexivity].
  - rewrite (truediv_of_int 1%R (3 - 1)) by lia. f_equal.
  - rewrite (truediv_of_int 1%R (2 - 1)) by lia. f_equal.
    cbn [quot of_int Real.R_Number]. simpl (2 - 1)%Z. field.
Qed.

Lemma heat_maximum_principle_witness :
  within 0 1 (advance (ratio (1 / 2)%R 1%R (1 / 16)%R) [0; 1; 0]%R).
Proof.
  apply (heat_maximum_principle 0 1 [0; 1; 0]%R _ 2 3 (1 / 16)%R 1%R 1%R);
    [lra|exact unit_profile_within|exact unit_heat_value].
Defined.

Lemma sine_mode_damped_witness :
  (step (sine_mode (PI / 3) 4 1) 1%R 1%R (1 / 4)%R
   = Ok (sine_mode (PI / 3) 4 (1 * growth (1 / 4 * 1 / 1 ^ 2) (PI / 3)))
   /\ (Rabs (1 * growth (1 / 4 * 1 / 1 ^ 2) (PI / 3)) <= Rabs 1)%R)
  /\ (0 < nth 1 (sine_mode (PI / 3) 4 1) 0)%R
  /\ growth (1 / 4 * 1 / 1 ^ 2) (PI / 3) = (3 / 4)%R.
Proof.
  split; [|split].
  - apply sine_mode_damped; [lia| |lra|lra|lra].
    replace (INR (4 - 1) * (PI / 3))%R with PI by (simpl INR; field).
    apply sin_PI.
  - simpl. rewrite !Rmult_1_l. pose proof PI_RGT_0.
    apply sin_gt_0; lra.
  - unfold growth. rewrite cos_PI3. field.
Defined.

Lemma linspace_grid_witness :
  exists xs : list R,
    TestDiffusion.linspace 0 1 3 = Ok xs
    /\ length xs = Z.to_nat 3
    /\ nth 0 xs 0%R = 0%R
    /\ nth (Z.to_nat 3 - 1) xs 0%R = 1%R
    /\ forall i : nat,
        (i + 1 < Z.to_nat 3)%nat ->
        (nth (i + 1) xs 0 - nth i xs 0 = (1 - 0) / IZR (3 - 1))%R.
Proof.
  apply linspace_grid. lia.
Defined.
